(** * File Summer ([sums.c]): a shallow embedding and its properties

    [sums.c] forks one child per block of the input, every child scans its
    block for three-digit groups and writes one [child_result] to a pipe, and
    the parent collects the results with epoll and prints the sums.

    The development follows the layout of the source: machine integers and
    the libc functions the program calls, the option parser, the children
    ([handle_stdin], [handle_file], [child_handler], [add_child]) and [main]
    with its two loops.  What the environment decides (the contents of the
    input, the order in which pipes become readable and what each [read]
    returns) is an explicit argument. *)

From Stdlib.Strings Require Import String Ascii Byte.
From Stdlib Require Import DecimalString.
From Stdlib Require Import ZArith List Bool Lia Permutation.
Import ListNotations.
Local Open Scope Z_scope.

(** ** Machine integers

    The program mixes [u_int16_t], [u_int64_t], [int] and [long].  Values are
    kept in [Z]; every conversion the C code performs is written out. *)

Module Int.

(** conversion to [u_int16_t] *)
Definition u16 (z : Z) : Z := z mod 2 ^ 16.

(** conversion to [u_int64_t] *)
Definition u64 (z : Z) : Z := z mod 2 ^ 64.

(** conversion to [int] (two's complement, 32 bits) *)
Definition int (z : Z) : Z :=
  let m := z mod 2 ^ 32 in if m <? 2 ^ 31 then m else m - 2 ^ 32.

(** conversion to [long] (two's complement, 64 bits) *)
Definition long (z : Z) : Z :=
  let m := z mod 2 ^ 64 in if m <? 2 ^ 63 then m else m - 2 ^ 64.

(** saturation of [strtol] *)
Definition clamp_long (z : Z) : Z :=
  Z.max (- 2 ^ 63) (Z.min (2 ^ 63 - 1) z).

End Int.

(** ** The libc functions used by the program *)

Module Libc.

(** the value [fgetc] returns for a byte: an [unsigned char] as [int] *)
Definition code (c : byte) : Z := Z.of_N (Byte.to_N c).

Definition isdigit (c : byte) : bool := (48 <=? code c) && (code c <=? 57).

Definition isspace (c : byte) : bool :=
  (code c =? 32) || ((9 <=? code c) && (code c <=? 13)).

(** the digits of a [strtol] number, up to the first byte that is not one *)
Fixpoint digits_value (s : list byte) (acc : Z) : Z :=
  match s with
  | c :: s' => if isdigit c then digits_value s' (10 * acc + (code c - 48))
               else acc
  | [] => acc
  end.

Fixpoint skip_spaces (s : list byte) : list byte :=
  match s with
  | c :: s' => if isspace c then skip_spaces s' else s
  | [] => []
  end.

Definition strtol (s : list byte) : Z :=
  match skip_spaces s with
  | c :: s' =>
      if code c =? 45 then Int.clamp_long (- digits_value s' 0)
      else if code c =? 43 then Int.clamp_long (digits_value s' 0)
      else Int.clamp_long (digits_value (c :: s') 0)
  | [] => 0
  end.

(** [atoi] is [(int) strtol (s, NULL, 10)]; a C string ends at its first
    NUL, which is not a digit, so the scan stops there by itself. *)
Definition atoi (s : list byte) : Z := Int.int (strtol s).

(** [%lu] and, for a value that is not negative, [%d] *)
Definition decimal (z : Z) : string :=
  NilZero.string_of_uint (N.to_uint (Z.to_N z)).

End Libc.

Import Libc.

(** ** Child handling section *)

(** [struct child_result]: what a child writes to its pipe. *)
Record child_result : Type := mk_child_result {
  child_num : Z;   (* u_int16_t *)
  sum : Z          (* u_int64_t *)
}.

(** The locals of the scanning loops: [buf], [c_count] and [result.sum]. *)
Record scan_state : Type := mk_scan {
  buf : list byte;   (* char buf[4] *)
  c_count : Z;       (* int *)
  scan_sum : Z       (* result.sum, u_int64_t *)
}.

(** [buf[i] = c] *)
Fixpoint store (l : list byte) (i : nat) (c : byte) : list byte :=
  match l, i with
  | [], _ => []
  | _ :: l', O => c :: l'
  | x :: l', S i' => x :: store l' i' c
  end.

(** [char buf[4] = {0}; int c_count = 0; struct child_result result = {0};] *)
Definition scan_init : scan_state :=
  mk_scan [x00; x00; x00; x00] 0 0.

(** The body shared by the loops of [handle_stdin] and [handle_file]:
<<
    if ( c_count < 3 && isdigit(c) ) { buf[c_count] = c; c_count += 1; }
    if ( c_count >= 3 ) { result.sum += atoi(buf); c_count = 0; }
>> *)
Definition scan_body (c : byte) (st : scan_state) : scan_state :=
  let st1 :=
    if (c_count st <? 3) && isdigit c
    then mk_scan (store (buf st) (Z.to_nat (c_count st)) c)
                 (c_count st + 1) (scan_sum st)
    else st in
  if c_count st1 >=? 3
  then mk_scan (buf st1) 0 (Int.u64 (scan_sum st1 + atoi (buf st1)))
  else st1.

(** [while ( ( c = fgetc(file) ) != EOF ) ...]: the stream is the list of
    bytes [fgetc] still has to deliver. *)
Fixpoint stdin_loop (stream : list byte) (st : scan_state) : scan_state :=
  match stream with
  | [] => st
  | c :: rest => stdin_loop rest (scan_body c st)
  end.

(** [handle_stdin]: the record written to the pipe. *)
Definition handle_stdin (stream : list byte) (num : Z) : child_result :=
  mk_child_result num (scan_sum (stdin_loop stream scan_init)).

(** [while ( pos <= read_to && ( c = fgetc(file) ) != EOF ) ... pos += 1;]
    Both ways out of the loop leave the state as it is, so the test on the
    stream comes first here to make the recursion structural. *)
Fixpoint file_loop (stream : list byte) (pos read_to : Z) (st : scan_state)
  : scan_state :=
  match stream with
  | [] => st
  | c :: rest =>
      if pos <=? read_to
      then file_loop rest (Int.u64 (pos + 1)) read_to (scan_body c st)
      else st
  end.

(** The bytes (or, for a file of offsets, the offsets) that the [fgetc] of
    that loop delivers to its body. *)
Fixpoint file_reads {A : Type} (stream : list A) (pos read_to : Z) : list A :=
  match stream with
  | [] => []
  | c :: rest =>
      if pos <=? read_to
      then c :: file_reads rest (Int.u64 (pos + 1)) read_to
      else []
  end.

(** [handle_file]: [stream] is what the opened and positioned [file] still
    delivers. *)
Definition handle_file (stream : list byte) (num seek_to read_to : Z)
  : child_result :=
  mk_child_result num (scan_sum (file_loop stream seek_to read_to scan_init)).

(** ** Argp section *)

(** [enum OPTION_KEYS]; [OTHER_KEY] stands for every key of the [default:]
    branch of [parse_opt]. *)
Inductive OPTION_KEYS : Type :=
| INPUT_FILE | OUTPUT_FILE | CHILD_COUNT | BLOCK_SIZE | OTHER_KEY.

(** [struct program_options].  [output_file] is [None] for [NULL] and the
    name of the stream otherwise; [st_size] is [_stat_buf.st_size], the only
    field of [_stat_buf] the program reads. *)
Record program_options : Type := mk_options {
  input_file : string;
  output_file : option string;
  child_count : Z;      (* u_int16_t *)
  block_size : Z;       (* u_int64_t *)
  _used_block : bool;
  _used_child : bool;
  st_size : Z           (* off_t *)
}.

(** The initialiser of the global: defaults, [_stat_buf] zeroed. *)
Definition default_options : program_options :=
  mk_options "-" None 1 0 false false 0.

Definition set_input_file (po : program_options) (v : string) :=
  mk_options v (output_file po) (child_count po) (block_size po)
             (_used_block po) (_used_child po) (st_size po).
Definition set_output_file (po : program_options) (v : option string) :=
  mk_options (input_file po) v (child_count po) (block_size po)
             (_used_block po) (_used_child po) (st_size po).
Definition set_child_count (po : program_options) (v : Z) :=
  mk_options (input_file po) (output_file po) v (block_size po)
             (_used_block po) (_used_child po) (st_size po).
Definition set_block_size (po : program_options) (v : Z) :=
  mk_options (input_file po) (output_file po) (child_count po) v
             (_used_block po) (_used_child po) (st_size po).
Definition set_used_block (po : program_options) (v : bool) :=
  mk_options (input_file po) (output_file po) (child_count po) (block_size po)
             v (_used_child po) (st_size po).
Definition set_used_child (po : program_options) (v : bool) :=
  mk_options (input_file po) (output_file po) (child_count po) (block_size po)
             (_used_block po) v (st_size po).
Definition set_st_size (po : program_options) (v : Z) :=
  mk_options (input_file po) (output_file po) (child_count po) (block_size po)
             (_used_block po) (_used_child po) v.

Definition EINVAL : Z := 22.
Definition ARGP_ERR_UNKNOWN : Z := 7.
Definition EXIT_FAILURE : Z := 1.
(** [argp_err_exit_status], [EX_USAGE] of sysexits.h *)
Definition EX_USAGE : Z := 64.

(** [parse_opt]: the error code and the global as the call leaves it. *)
Definition parse_opt (key : OPTION_KEYS) (arg : string)
    (arguments : program_options) : Z * program_options :=
  match key with
  | BLOCK_SIZE =>
      if _used_child arguments then (EINVAL, arguments)
      else
        let a1 := set_block_size arguments
                    (Int.u64 (atoi (list_byte_of_string arg))) in
        (0, set_used_block a1 true)
  | INPUT_FILE => (0, set_input_file arguments arg)
  | OUTPUT_FILE => (0, set_output_file arguments (Some arg))
  | CHILD_COUNT =>
      if _used_block arguments then (EINVAL, arguments)
      else
        let a1 := set_child_count arguments
                    (Int.u16 (atoi (list_byte_of_string arg))) in
        let a2 := set_used_child a1 true in
        if child_count a2 <=? 0 then (EINVAL, a2) else (0, a2)
  | OTHER_KEY => (ARGP_ERR_UNKNOWN, arguments)
  end.

(** [argp_parse] hands the options of the command line to the parser one
    after the other and stops at the first error. *)
Fixpoint argp_parse (argv : list (OPTION_KEYS * string))
    (po : program_options) : Z * program_options :=
  match argv with
  | [] => (0, po)
  | (key, arg) :: rest =>
      let (e, po') := parse_opt key arg po in
      if e =? 0 then argp_parse rest po' else (e, po')
  end.

(** [handle_options]: [inl] is the status the process exits with.  For a
    key the parser does not know [argp_parse] does not return: argp prints
    its usage note and exits with [argp_err_exit_status].  Any other error
    of the parser is returned and ends in [error (EXIT_FAILURE, ...)]. *)
Definition handle_options (argv : list (OPTION_KEYS * string))
  : Z + program_options :=
  let (result, po) := argp_parse argv default_options in
  if result =? ARGP_ERR_UNKNOWN then inl EX_USAGE
  else if negb (result =? 0) then inl EXIT_FAILURE
  else match output_file po with
       | None => inr (set_output_file po (Some "-"%string))
       | Some _ => inr po
       end.

(** ** What the environment provides *)

Record environment : Type := mk_env {
  stdin_data : list byte;                       (* what stdin delivers *)
  file_system : string -> option (list byte);   (* the file at a path *)
  pipe_fds : nat -> Z * Z                       (* the n-th call of [pipe] *)
}.

(** ** Children, continued *)

(** [struct child_info] without the epoll event, which only repeats
    [fds[0]], and without the unused [result]. *)
Record child_info : Type := mk_child_info {
  fds : Z * Z;
  seek_to : Z;      (* u_int64_t *)
  read_to : Z;      (* u_int64_t *)
  info_num : Z      (* child_num, u_int16_t *)
}.

(** [fseek (file, position, SEEK_SET)] on a freshly opened stream: what the
    stream delivers afterwards.  The offset parameter of [fseek] is a
    [long]; a negative one is refused and leaves the stream at its start. *)
Definition fseek {A : Type} (file : list A) (position : Z) : list A :=
  if Int.long position <? 0 then file
  else skipn (Z.to_nat (Int.long position)) file.

(** [open_and_seek_to] *)
Definition open_and_seek_to (env : environment) (path : string)
    (position : Z) : list byte :=
  match file_system env path with
  | Some content => fseek content position
  | None => []
  end.

(** The end of the block as [child_handler] passes it to [handle_file];
    [child_info.read_to == -1] compares as [u_int64_t]. *)
Definition effective_read_to (po : program_options) (ci_read_to : Z) : Z :=
  if ci_read_to =? Int.u64 (-1) then Int.u64 (st_size po) else ci_read_to.

(** [child_handler]: the record the child writes to [fds[1]] before it
    exits. *)
Definition child_handler (po : program_options) (env : environment)
    (ci : child_info) : child_result :=
  let is_stdin := String.eqb (input_file po) "-" in
  if is_stdin then handle_stdin (stdin_data env) (info_num ci)
  else
    let read_to := effective_read_to po (read_to ci) in
    handle_file (open_and_seek_to env (input_file po) (seek_to ci))
                (info_num ci) (seek_to ci) read_to.

(** The part of a file that the loop of the child reads when the input is
    a file: [child_handler] with the scan left out. *)
Definition child_reads {A : Type} (file : list A) (po : program_options)
    (ci : child_info) : list A :=
  file_reads (fseek file (seek_to ci)) (seek_to ci)
             (effective_read_to po (read_to ci)).

(** [add_child] in the parent: [list_head] holds the nodes behind the head,
    walking it to its end counts them.  [pipe] and [fork] are taken to
    succeed.  The parameters [seek_to] and [read_to] are [int]s. *)
Definition add_child (env : environment) (epoll : list Z)
    (list_head : list child_info) (seek_to read_to : Z)
  : list Z * list child_info :=
  let child_num := Z.of_nat (length list_head) in
  let pipe := pipe_fds env (length list_head) in
  let new_child :=
    mk_child_info pipe (Int.u64 seek_to) (Int.u64 read_to)
                  (Int.u16 child_num) in
  (epoll ++ [fst pipe], list_head ++ [new_child]).

(** ** main *)

(** [struct epoll_event] as the parent sees it after [epoll_wait] and
    [read]: the descriptor, the value [read] returned, and the contents of
    the local [result] at that point. *)
Record read_event : Type := mk_event {
  ev_fd : Z;
  ev_bytes : Z;              (* ssize_t *)
  ev_result : child_result
}.

(** [sizeof (struct child_result)]: two bytes, padding, eight bytes. *)
Definition sizeof_child_result : Z := 16.

(** The variables of the collecting loop. *)
Record coordinator : Type := mk_coord {
  final_sum : Z;         (* long *)
  waiting_for : Z;       (* u_int16_t *)
  epoll_set : list Z;    (* descriptors registered with epoll_fd *)
  output : list string   (* lines written to output_file *)
}.

Definition child_line (r : child_result) : string :=
  ("Child " ++ decimal (child_num r) ++ " Sum: " ++ decimal (sum r))%string.

Definition epoll_del (fd : Z) (set : list Z) : list Z :=
  filter (fun x => negb (x =? fd)) set.

(** The body of [while (waiting_for > 0)] for one event. *)
Definition handle_event (ev : read_event) (st : coordinator) : coordinator :=
  if ev_bytes ev >? 0 then
    mk_coord
      (Int.long (Int.u64 (final_sum st) + sum (ev_result ev)))
      (Int.u16 (waiting_for st - 1))
      (epoll_del (ev_fd ev) (epoll_set st))
      (output st ++ [child_line (ev_result ev)])
  else
    mk_coord (final_sum st) (waiting_for st)
             (epoll_del (ev_fd ev) (epoll_set st)) (output st).

(** How the collecting loop ends: it is left, or [epoll_wait], which has no
    timeout, never returns because no event is left. *)
Inductive loop_end : Type :=
| Finished (st : coordinator)
| Blocked (st : coordinator).

Fixpoint collect (evs : list read_event) (st : coordinator) : loop_end :=
  if waiting_for st >? 0 then
    match evs with
    | [] => Blocked st
    | ev :: evs' => collect evs' (handle_event ev st)
    end
  else Finished st.

(** The variables of the loop when it has ended. *)
Definition loop_state (e : loop_end) : coordinator :=
  match e with
  | Finished st => st
  | Blocked st => st
  end.

(** Lines 486 to 517: the outcome of looking at the input. *)
Inductive prepared : Type :=
| Abort (status : Z) (err : list string)
| Ready (po : program_options) (out err : list string).

Definition warn_block_size (v : Z) : string :=
  ("Warn: using stdin... ignoring block size " ++ decimal v ++ ".")%string.
Definition warn_child_count (v : Z) : string :=
  ("Warn: using stdin... ignoring child count " ++ decimal v ++ ".")%string.

Definition prepare (env : environment) (po : program_options) : prepared :=
  if String.eqb "-" (input_file po) then
    let (po1, err1) :=
      if negb (block_size po =? 0)
      then (set_block_size po 0, [warn_block_size (block_size po)])
      else (po, []) in
    let (po2, err2) :=
      if child_count po1 >? 1
      then (set_child_count po1 1, [warn_child_count (child_count po1)])
      else (po1, []) in
    Ready po2 [] (err1 ++ err2)
  else
    match file_system env (input_file po) with
    | None => Abort EXIT_FAILURE ["Error checking input file"%string]
    | Some content =>
        let po1 := set_st_size po (Z.of_nat (length content)) in
        Ready po1 [("File size: " ++ decimal (st_size po1))%string] []
    end.

(** Lines 519 to 526: the child count from the block size, or the block
    size from the child count. *)
Definition sizing (po : program_options) : program_options :=
  if block_size po >? 0
  then set_child_count po (Int.u16 (Int.u64 (st_size po) / block_size po))
  else set_block_size po (Int.u64 (st_size po / child_count po)).

(** The block of child [i], as [u_int64_t]s, lines 534 to 543. *)
Definition block_bounds (po : program_options) (i : Z) : Z * Z :=
  let seek_to := Int.u64 (i * block_size po) in
  let read_to :=
    if i + 1 =? child_count po then Int.u64 (-1)
    else Int.u64 ((i + 1) * block_size po - 1) in
  (seek_to, read_to).

(** [for ( int i = 0; i < program_options.child_count; i++ )] *)
Definition spawn_children (env : environment) (po : program_options)
  : list Z * list child_info :=
  fold_left
    (fun '(epoll, list_head) i =>
       let (seek_to, read_to) := block_bounds po i in
       add_child env epoll list_head (Int.int seek_to) (Int.int read_to))
    (map Z.of_nat (seq 0 (Z.to_nat (child_count po))))
    ([], []).

Inductive outcome : Type :=
| Exit (status : Z)
| Hang.

Record run : Type := mk_run {
  result : outcome;
  stdout : list string;
  stderr : list string;
  children : list child_info;    (* the children forked *)
  options : program_options;     (* the global when the run ends *)
  coord : coordinator            (* the variables of the collecting loop *)
}.

Definition final_line (st : coordinator) : string :=
  ("Final Sum: " ++ decimal (Int.u64 (final_sum st)))%string.

(** [main]: [evs] is the sequence of events [epoll_wait] and [read] deliver.
    [epoll_create] is taken to succeed.  A line of [stdout] or [stderr] is
    the text of one [fprintf], without its newline. *)
Definition main (argv : list (OPTION_KEYS * string)) (env : environment)
    (evs : list read_event) : run :=
  let start := mk_coord 0 0 [] [] in
  match handle_options argv with
  | inl status =>
      mk_run (Exit status) []
             (if status =? EX_USAGE
              then ["Try --help or --usage for more information."%string]
              else ["Error parsing agruments"%string])
             [] (snd (argp_parse argv default_options)) start
  | inr po =>
      match prepare env po with
      | Abort status err => mk_run (Exit status) [] err [] po start
      | Ready po1 out err =>
          let po2 := sizing po1 in
          let (epoll, list_head) := spawn_children env po2 in
          match collect evs (mk_coord 0 (child_count po2) epoll out) with
          | Blocked st => mk_run Hang (output st) err list_head po2 st
          | Finished st =>
              mk_run (Exit 0) (output st ++ [final_line st]) err list_head
                     po2 st
          end
      end
  end.

(** The event a child causes when its record arrives whole. *)
Definition delivered (po : program_options) (env : environment)
    (ci : child_info) : read_event :=
  mk_event (fst (fds ci)) sizeof_child_result (child_handler po env ci).

(** ** Notions used to state the properties *)

Definition bytes (s : string) : list byte := list_byte_of_string s.

(** An environment with one file, ["in.dat"], and nothing on stdin. *)
Definition one_file (content : list byte) : environment :=
  mk_env [] (fun p => if String.eqb p "in.dat" then Some content else None)
         (fun n => (4 + 2 * Z.of_nat n, 5 + 2 * Z.of_nat n)).

(** An environment without files, with [data] on stdin. *)
Definition only_stdin (data : list byte) : environment :=
  mk_env data (fun _ => None)
         (fun n => (4 + 2 * Z.of_nat n, 5 + 2 * Z.of_nat n)).

(** The offsets of a file of [n] bytes. *)
Definition offsets (n : nat) : list Z := map Z.of_nat (seq 0 n).

(** The blocks of a file as the children of a run read them. *)
Definition blocks {A : Type} (file : list A) (r : run) : list (list A) :=
  map (child_reads file (options r)) (children r).

(** The sum a run reports in its last line. *)
Definition reported_sum (r : run) : Z := Int.u64 (final_sum (coord r)).

(** The events of a run in which every record arrives whole. *)
Definition deliveries (env : environment) (r : run) : list read_event :=
  map (delivered (options r) env) (children r).

(** The run in which the record of every child arrives whole, in the order
    of the child numbers. *)
Definition whole_run (argv : list (OPTION_KEYS * string)) (env : environment)
  : run :=
  main argv env (deliveries env (main argv env [])).

(** The reads of a sequence that return more than zero bytes, the records
    they leave in [result], and their number. *)
Definition got_bytes (ev : read_event) : bool := ev_bytes ev >? 0.

Definition records_of (evs : list read_event) : list child_result :=
  map ev_result (filter got_bytes evs).

Definition records_read (evs : list read_event) : Z :=
  Z.of_nat (length (filter got_bytes evs)).

(** The sum of the [sum] fields of a list of records, without wrap-around. *)
Definition sum_of (rs : list child_result) : Z :=
  fold_right (fun r acc => sum r + acc) 0 rs.

(** The node [add_child] appends in round [i] of the loop of [main]. *)
Definition nth_child (env : environment) (po : program_options) (i : nat)
  : child_info :=
  mk_child_info (pipe_fds env i)
                (Int.u64 (Int.int (fst (block_bounds po (Z.of_nat i)))))
                (Int.u64 (Int.int (snd (block_bounds po (Z.of_nat i)))))
                (Int.u16 (Z.of_nat i)).

(** Digits and groups of three digits. *)
Definition digit_value (c : byte) : Z := code c - 48.

Definition digits (stream : list byte) : list byte := filter isdigit stream.

Definition digit_count (stream : list byte) : Z :=
  Z.of_nat (length (digits stream)).

(** The sum of the complete groups of three of a sequence of digits. *)
Fixpoint group_sum (ds : list byte) : Z :=
  match ds with
  | a :: b :: c :: rest =>
      100 * digit_value a + 10 * digit_value b + digit_value c
      + group_sum rest
  | _ => 0
  end.

(** A boundary with [before] digits in front of it, in an input of [total]
    digits, cuts a group of three when the digits in front do not end a
    group and the group they begin is completed behind the boundary. *)
Definition group_straddles (before total : Z) : bool :=
  negb (before mod 3 =? 0) && (3 * (before / 3) + 3 <=? total).

(** No boundary between two consecutive pieces cuts a group. *)
Definition no_group_straddles (pieces : list (list byte)) : Prop :=
  forall k : nat,
    (0 < k < length pieces)%nat ->
    group_straddles (digit_count (concat (firstn k pieces)))
                    (digit_count (concat pieces)) = false.

(** ** The wording of the specification *)

(** A sequence of digits read as an unsigned decimal number; leading
    zeros are allowed. *)
Definition unsigned_decimal (group : list byte) : Z :=
  fold_left (fun acc d => 10 * acc + digit_value d) group 0.

(** The worker algorithm in the words of the specification (section 4.2):
    a buffer of at most three digits ([pending], the fill counter is its
    length) and a running [u64] sum; a digit is appended while the counter is
    below 3, a full buffer is read as an unsigned decimal number, added, and
    the counter reset; what is left in the buffer at the end is dropped. *)
Fixpoint reference_scan (stream pending : list byte) (total : Z) : Z :=
  match stream with
  | [] => total
  | b :: rest =>
      if isdigit b && (Z.of_nat (length pending) <? 3) then
        let pending' := pending ++ [b] in
        if Z.of_nat (length pending') =? 3
        then reference_scan rest [] (Int.u64 (total + unsigned_decimal pending'))
        else reference_scan rest pending' total
      else reference_scan rest pending total
  end.

(** The report line of a worker in the words of the specification
    (section 6). *)
Definition spec_worker_line (id total : Z) : string :=
  ("Worker " ++ decimal id ++ " Sum: " ++ decimal total)%string.

(** The sum of the complete groups of every piece, without wrap-around. *)
Definition groups_total (pieces : list (list byte)) : Z :=
  fold_right (fun p acc => group_sum (digits p) + acc) 0 pieces.

(** Command lines and events used as examples. *)
Definition one_child_argv : list (OPTION_KEYS * string) :=
  [(INPUT_FILE, "in.dat"%string)].

Definition two_children_argv : list (OPTION_KEYS * string) :=
  [(INPUT_FILE, "in.dat"%string); (CHILD_COUNT, "2"%string)].

Definition block_of_ten_argv : list (OPTION_KEYS * string) :=
  [(INPUT_FILE, "in.dat"%string); (BLOCK_SIZE, "10"%string)].

(** A file of 2^32 bytes, and the environment that holds it. *)
Definition four_gib_file : list byte := repeat x00 (Z.to_nat (2 ^ 32)).

(** A [read] that returns 0: the pipe was closed and nothing was written. *)
Definition closed_without_record : read_event :=
  mk_event 4 0 (mk_child_result 0 0).

(** Two short reads: 12 and 3 of the 16 bytes arrive, and [result] is what
    those bytes and the former contents of the local make of it. *)
Definition twelve_bytes : read_event := mk_event 4 12 (mk_child_result 1 300).
Definition three_bytes : read_event := mk_event 4 3 (mk_child_result 0 7).

(** The buffer of a scanning loop holds the digits [pending] of the group
    that is being collected, and its fourth byte is still the NUL of the
    initialiser. *)
Definition holds (st : scan_state) (pending : list byte) : Prop :=
  exists d0 d1 d2,
    buf st = [d0; d1; d2; x00] /\
    c_count st = Z.of_nat (length pending) /\
    (length pending < 3)%nat /\
    firstn (length pending) [d0; d1; d2] = pending /\
    Forall (fun c => isdigit c = true) pending.

(** * Properties *)

(** ** Characters and [atoi] *)

Section Characters.

Variable c : byte.
Hypothesis c_digit : isdigit c = true.

Lemma digit_code : 48 <= code c <= 57.
Proof using c_digit.
  unfold isdigit in c_digit. apply andb_true_iff in c_digit. lia.
Qed.

Lemma digit_value_range : 0 <= digit_value c <= 9.
Proof using c_digit. unfold digit_value. pose proof digit_code. lia. Qed.

Lemma digit_not_space : isspace c = false.
Proof using c_digit.
  unfold isspace. pose proof digit_code.
  apply orb_false_iff. split; [lia|]. apply andb_false_iff. right. lia.
Qed.

End Characters.

Lemma atoi_three_digits (a b c : byte) :
  isdigit a = true -> isdigit b = true -> isdigit c = true ->
  atoi [a; b; c; x00] = unsigned_decimal [a; b; c].
Proof.
  intros Ha Hb Hc.
  pose proof (digit_code a Ha). pose proof (digit_value_range a Ha).
  pose proof (digit_value_range b Hb). pose proof (digit_value_range c Hc).
  unfold atoi, strtol. cbn [skip_spaces]. rewrite (digit_not_space a Ha).
  replace (code a =? 45) with false by lia.
  replace (code a =? 43) with false by lia.
  cbn [digits_value]. rewrite Ha, Hb, Hc.
  replace (isdigit x00) with false by reflexivity.
  unfold unsigned_decimal. cbn [fold_left]. fold (digit_value a).
  fold (digit_value b). fold (digit_value c).
  set (v := 10 * (10 * (10 * 0 + digit_value a) + digit_value b)
            + digit_value c).
  assert (0 <= v <= 999) by (subst v; lia).
  unfold Int.clamp_long, Int.int.
  rewrite Z.min_r by lia. rewrite Z.max_r by lia.
  rewrite Z.mod_small by lia.
  replace (v <? 2 ^ 31) with true by lia. reflexivity.
Qed.

Lemma unsigned_decimal_group (a b c : byte) :
  unsigned_decimal [a; b; c]
  = 100 * digit_value a + 10 * digit_value b + digit_value c.
Proof. unfold unsigned_decimal. cbn [fold_left]. lia. Qed.

(** ** The scanning loops *)

Lemma holds_init : holds scan_init [].
Proof.
  exists x00, x00, x00. cbn. repeat split; auto.
Qed.

(** The loop of the source and the scan of the specification go through
    the same sums. *)
Lemma stdin_loop_reference (stream : list byte) :
  forall st pending,
    holds st pending ->
    scan_sum (stdin_loop stream st)
    = reference_scan stream pending (scan_sum st).
Proof.
  induction stream as [|b rest IH]; intros st pending H; [reflexivity|].
  destruct st as [bf cc total].
  destruct H as (d0 & d1 & d2 & Hb & Hc & Hl & Hf & Hd).
  cbn [buf c_count scan_sum] in *. subst bf cc.
  cbn [stdin_loop reference_scan]. unfold scan_body.
  cbn [buf c_count scan_sum].
  replace (Z.of_nat (length pending) <? 3) with true by lia.
  rewrite andb_true_r. cbn [andb].
  destruct (isdigit b) eqn:Hdig.
  - destruct pending as [|p0 [|p1 [|p2 tl]]]; cbn [length] in Hl; try lia;
      cbv [length app Z.of_nat Pos.of_succ_nat Pos.succ Z.add Z.to_nat
           Pos.to_nat Pos.iter_op Nat.add store Z.geb Z.compare Pos.compare
           Pos.compare_cont Z.eqb Pos.eqb Pos.add];
      cbn [buf c_count scan_sum].
    + rewrite (IH _ [b]); [reflexivity|].
      exists b, d1, d2. cbn. repeat split; auto.
    + cbn in Hf. injection Hf as ->.
      rewrite (IH _ [p0; b]); [reflexivity|].
      inversion Hd; subst.
      exists p0, b, d2. cbn. repeat split; auto.
    + cbn in Hf. injection Hf as -> ->.
      inversion Hd as [|? ? H0 Hd']; subst. inversion Hd'; subst.
      rewrite atoi_three_digits by assumption.
      rewrite (IH _ []); [reflexivity|].
      exists p0, p1, b. cbn. repeat split; auto.
  - cbn [buf c_count scan_sum].
    replace (Z.of_nat (length pending) >=? 3) with false by lia.
    apply IH. exists d0, d1, d2. cbn. repeat split; auto.
Qed.

Lemma handle_stdin_reference (stream : list byte) (num : Z) :
  sum (handle_stdin stream num) = reference_scan stream [] 0.
Proof.
  unfold handle_stdin. cbn [sum].
  apply (stdin_loop_reference stream scan_init []), holds_init.
Qed.

Lemma u64_small (z : Z) : 0 <= z < 2 ^ 64 -> Int.u64 z = z.
Proof. intros H. unfold Int.u64. apply Z.mod_small. exact H. Qed.

Lemma u64_range (z : Z) : 0 <= Int.u64 z < 2 ^ 64.
Proof. unfold Int.u64. apply Z.mod_pos_bound. lia. Qed.

Lemma u64_add_l (a b : Z) : Int.u64 (Int.u64 a + b) = Int.u64 (a + b).
Proof. unfold Int.u64. apply Zplus_mod_idemp_l. Qed.

Lemma u64_add_r (a b : Z) : Int.u64 (a + Int.u64 b) = Int.u64 (a + b).
Proof. unfold Int.u64. apply Zplus_mod_idemp_r. Qed.

Lemma u64_long (z : Z) : Int.u64 (Int.long z) = Int.u64 z.
Proof.
  unfold Int.long, Int.u64.
  destruct (z mod 2 ^ 64 <? 2 ^ 63).
  - apply Z.mod_mod. lia.
  - replace (z mod 2 ^ 64 - 2 ^ 64) with (z mod 2 ^ 64 + (-1) * 2 ^ 64) by lia.
    rewrite Z.mod_add by lia. apply Z.mod_mod. lia.
Qed.

Lemma digits_app (xs ys : list byte) : digits (xs ++ ys) = digits xs ++ digits ys.
Proof. unfold digits. apply filter_app. Qed.

Lemma group_sum_short (ds : list byte) : (length ds < 3)%nat -> group_sum ds = 0.
Proof.
  destruct ds as [|a [|b [|c tl]]]; cbn [length]; intros H; try reflexivity; lia.
Qed.

(** The scan of the specification adds up the complete groups of three of
    the digits of the stream, whatever lies between the digits. *)
Lemma reference_scan_groups (stream : list byte) :
  forall pending total,
    (length pending < 3)%nat ->
    0 <= total < 2 ^ 64 ->
    reference_scan stream pending total
    = Int.u64 (total + group_sum (pending ++ digits stream)).
Proof.
  induction stream as [|b rest IH]; intros pending total Hl Ht.
  - cbn [reference_scan digits filter]. rewrite app_nil_r.
    rewrite group_sum_short by assumption.
    rewrite Z.add_0_r. symmetry. apply u64_small. exact Ht.
  - cbn [reference_scan]. unfold digits. cbn [filter]. fold (digits rest).
    replace (Z.of_nat (length pending) <? 3) with true by lia.
    rewrite andb_true_r.
    destruct (isdigit b) eqn:Hdig; [|apply IH; assumption].
    destruct pending as [|p0 [|p1 [|p2 tl]]]; cbn [length] in Hl; try lia.
    + change (Z.of_nat (length ([] ++ [b])) =? 3) with false. cbv iota.
      rewrite (IH [b]) by (cbn [length]; lia || assumption). reflexivity.
    + change (Z.of_nat (length ([p0] ++ [b])) =? 3) with false. cbv iota.
      rewrite (IH [p0; b]) by (cbn [length]; lia || assumption). reflexivity.
    + change (Z.of_nat (length ([p0; p1] ++ [b])) =? 3) with true. cbv iota.
      rewrite (IH []) by (cbn [length]; lia || apply u64_range).
      cbn [app group_sum]. rewrite u64_add_l.
      rewrite unsigned_decimal_group. f_equal. lia.
Qed.

Lemma handle_stdin_groups (stream : list byte) (num : Z) :
  sum (handle_stdin stream num) = Int.u64 (group_sum (digits stream)).
Proof.
  rewrite handle_stdin_reference.
  rewrite reference_scan_groups by (cbn; lia). reflexivity.
Qed.

(** The loop of [handle_file] is the loop of [handle_stdin] over the bytes
    it reads. *)
Lemma file_loop_reads (stream : list byte) :
  forall pos read_to st,
    file_loop stream pos read_to st
    = stdin_loop (file_reads stream pos read_to) st.
Proof.
  induction stream as [|c rest IH]; intros pos read_to st; [reflexivity|].
  cbn [file_loop file_reads].
  destruct (pos <=? read_to); [|reflexivity].
  cbn [stdin_loop]. apply IH.
Qed.

(** Without wrap-around of [pos] the loop reads [read_to - pos + 1] items
    or up to the end of the stream. *)
Lemma file_reads_firstn {A : Type} (stream : list A) :
  forall pos read_to,
    0 <= pos -> read_to < 2 ^ 64 - 1 ->
    file_reads stream pos read_to
    = firstn (Z.to_nat (read_to - pos + 1)) stream.
Proof.
  induction stream as [|c rest IH]; intros pos read_to Hp Hr.
  - cbn [file_reads]. now rewrite firstn_nil.
  - cbn [file_reads]. destruct (pos <=? read_to) eqn:Hle.
    + apply Z.leb_le in Hle.
      rewrite u64_small by lia. rewrite IH by lia.
      replace (Z.to_nat (read_to - pos + 1))
        with (S (Z.to_nat (read_to - (pos + 1) + 1))) by lia.
      reflexivity.
    + apply Z.leb_gt in Hle.
      replace (Z.to_nat (read_to - pos + 1)) with 0%nat by lia.
      reflexivity.
Qed.

Lemma handle_file_groups (stream : list byte) (num seek_to read_to : Z) :
  sum (handle_file stream num seek_to read_to)
  = Int.u64 (group_sum (digits (file_reads stream seek_to read_to))).
Proof.
  unfold handle_file. cbn [sum]. rewrite file_loop_reads.
  apply (handle_stdin_groups _ 0).
Qed.

(** ** The option parser *)

Lemma parse_opt_child_count (key : OPTION_KEYS) (arg : string)
    (po po' : program_options) :
  1 <= child_count po < 2 ^ 16 ->
  parse_opt key arg po = (0, po') ->
  1 <= child_count po' < 2 ^ 16.
Proof.
  intros Hpo. unfold parse_opt.
  destruct key.
  - intros [= <-]. exact Hpo.
  - intros [= <-]. exact Hpo.
  - destruct (_used_block po); [discriminate|].
    cbn [child_count set_used_child set_child_count].
    destruct (Int.u16 _ <=? 0) eqn:Hz; [discriminate|].
    intros [= <-]. cbn [child_count set_used_child set_child_count].
    apply Z.leb_gt in Hz. unfold Int.u16 in *.
    pose proof (Z.mod_pos_bound (atoi (list_byte_of_string arg)) (2 ^ 16)).
    lia.
  - destruct (_used_child po); [discriminate|].
    intros [= <-]. exact Hpo.
  - discriminate.
Qed.

Lemma argp_parse_child_count (argv : list (OPTION_KEYS * string)) :
  forall po po',
    1 <= child_count po < 2 ^ 16 ->
    argp_parse argv po = (0, po') ->
    1 <= child_count po' < 2 ^ 16.
Proof.
  induction argv as [|[key arg] rest IH]; intros po po' Hpo.
  - intros [= <-]. exact Hpo.
  - cbn [argp_parse]. destruct (parse_opt key arg po) as [e po1] eqn:Hp.
    destruct (e =? 0) eqn:He.
    + apply Z.eqb_eq in He. subst e. apply IH.
      exact (parse_opt_child_count _ _ _ _ Hpo Hp).
    + intros [= -> _]. discriminate.
Qed.

(** An accepted command line asks for at least one child. *)
Lemma handle_options_child_count (argv : list (OPTION_KEYS * string))
    (po : program_options) :
  handle_options argv = inr po -> 1 <= child_count po < 2 ^ 16.
Proof.
  unfold handle_options.
  destruct (argp_parse argv default_options) as [e po1] eqn:Hp.
  destruct (e =? ARGP_ERR_UNKNOWN); [discriminate|].
  destruct (e =? 0) eqn:He; cbn [negb]; [|discriminate].
  apply Z.eqb_eq in He. subst e.
  assert (1 <= child_count po1 < 2 ^ 16) as H1.
  { apply (argp_parse_child_count argv default_options); [cbn; lia|exact Hp]. }
  destruct (output_file po1); intros [= <-]; exact H1.
Qed.

(** ** The loop that creates the children *)

Lemma spawn_children_rounds (env : environment) (po : program_options)
    (n : nat) :
  fold_left
    (fun '(epoll, list_head) i =>
       let (seek_to, read_to) := block_bounds po i in
       add_child env epoll list_head (Int.int seek_to) (Int.int read_to))
    (map Z.of_nat (seq 0 n)) ([], [])
  = (map (fun i => fst (pipe_fds env i)) (seq 0 n),
     map (nth_child env po) (seq 0 n)).
Proof.
  induction n as [|n IH]; [reflexivity|].
  rewrite seq_S, map_app, fold_left_app, IH. cbn [Nat.add map fold_left].
  destruct (block_bounds po (Z.of_nat n)) as [s e] eqn:Hb.
  unfold add_child. rewrite !length_map, !length_seq, !map_app.
  cbn [map]. unfold nth_child. rewrite Hb. reflexivity.
Qed.

Lemma spawn_children_eq (env : environment) (po : program_options) :
  spawn_children env po
  = (map (fun i => fst (pipe_fds env i)) (seq 0 (Z.to_nat (child_count po))),
     map (nth_child env po) (seq 0 (Z.to_nat (child_count po)))).
Proof. apply spawn_children_rounds. Qed.

(** ** The collecting loop *)

Lemma sum_of_app (xs ys : list child_result) :
  sum_of (xs ++ ys) = sum_of xs + sum_of ys.
Proof.
  induction xs as [|x xs IH]; cbn [app sum_of fold_right]; [reflexivity|].
  fold (sum_of (xs ++ ys)). fold (sum_of xs). lia.
Qed.

Lemma sum_of_permutation (xs ys : list child_result) :
  Permutation xs ys -> sum_of xs = sum_of ys.
Proof.
  induction 1; cbn [sum_of fold_right]; try fold (sum_of l);
    try fold (sum_of l'); lia.
Qed.

Lemma no_records (evs : list read_event) :
  records_read evs = 0 -> records_of evs = [].
Proof.
  unfold records_read, records_of. intros H.
  destruct (filter got_bytes evs); [reflexivity|cbn [length] in H; lia].
Qed.

Lemma handle_event_got (ev : read_event) (st : coordinator) :
  got_bytes ev = true ->
  handle_event ev st
  = mk_coord (Int.long (Int.u64 (final_sum st) + sum (ev_result ev)))
             (Int.u16 (waiting_for st - 1))
             (epoll_del (ev_fd ev) (epoll_set st))
             (output st ++ [child_line (ev_result ev)]).
Proof. unfold handle_event, got_bytes. intros ->. reflexivity. Qed.

Lemma handle_event_none (ev : read_event) (st : coordinator) :
  got_bytes ev = false ->
  handle_event ev st
  = mk_coord (final_sum st) (waiting_for st)
             (epoll_del (ev_fd ev) (epoll_set st)) (output st).
Proof. unfold handle_event, got_bytes. intros ->. reflexivity. Qed.

Lemma records_read_cons (ev : read_event) (evs : list read_event) :
  records_read (ev :: evs)
  = (if got_bytes ev then 1 else 0) + records_read evs.
Proof.
  unfold records_read. cbn [filter].
  destruct (got_bytes ev); cbn [length]; lia.
Qed.

Lemma records_of_cons (ev : read_event) (evs : list read_event) :
  records_of (ev :: evs)
  = (if got_bytes ev then [ev_result ev] else []) ++ records_of evs.
Proof.
  unfold records_of. cbn [filter]. destruct (got_bytes ev); reflexivity.
Qed.

Lemma records_read_nonneg (evs : list read_event) : 0 <= records_read evs.
Proof. unfold records_read. lia. Qed.

(** What the loop has done when it ends: it is left exactly when as many
    reads have returned bytes as children were waited for. *)
Lemma collect_end (evs : list read_event) :
  forall st,
    0 <= waiting_for st < 2 ^ 16 ->
    records_read evs <= waiting_for st ->
    exists st',
      collect evs st
      = (if records_read evs =? waiting_for st then Finished st'
         else Blocked st') /\
      waiting_for st' = waiting_for st - records_read evs /\
      Int.u64 (final_sum st')
      = Int.u64 (final_sum st + sum_of (records_of evs)) /\
      output st' = output st ++ map child_line (records_of evs).
Proof.
  induction evs as [|ev evs IH]; intros st Hw Hr.
  - exists st. cbn [collect]. unfold records_read, records_of.
    cbn [filter length map sum_of fold_right Z.of_nat].
    rewrite app_nil_r, Z.add_0_r, Z.sub_0_r.
    repeat split; try reflexivity.
    destruct (waiting_for st >? 0) eqn:Hgt.
    + replace (0 =? waiting_for st) with false by lia. reflexivity.
    + replace (0 =? waiting_for st) with true by lia. reflexivity.
  - cbn [collect]. destruct (waiting_for st >? 0) eqn:Hgt.
    + rewrite records_read_cons in *. rewrite records_of_cons.
      pose proof (records_read_nonneg evs) as Hn.
      destruct (got_bytes ev) eqn:Hev.
      * rewrite (handle_event_got _ _ Hev).
        set (st1 := mk_coord _ _ _ _).
        assert (waiting_for st1 = waiting_for st - 1) as Hw1.
        { subst st1. cbn [waiting_for]. unfold Int.u16.
          apply Z.mod_small. lia. }
        destruct (IH st1) as (st' & Hc & Hw' & Hs & Ho); [lia|lia|].
        exists st'. rewrite Hc, Hw', Hs, Ho, Hw1.
        repeat split.
        -- destruct (records_read evs =? waiting_for st - 1) eqn:He.
           ++ replace (1 + records_read evs =? waiting_for st) with true by lia.
              reflexivity.
           ++ replace (1 + records_read evs =? waiting_for st) with false by lia.
              reflexivity.
        -- lia.
        -- subst st1. cbn [final_sum]. rewrite sum_of_app.
           cbn [sum_of fold_right]. rewrite Z.add_0_r.
           rewrite <- (u64_add_l (Int.long _)), u64_long, u64_add_l.
           rewrite <- Z.add_assoc, u64_add_l. reflexivity.
        -- subst st1. cbn [output app map]. rewrite <- app_assoc. reflexivity.
      * rewrite (handle_event_none _ _ Hev).
        set (st1 := mk_coord _ _ _ _).
        destruct (IH st1) as (st' & Hc & Hw' & Hs & Ho);
          [exact Hw|subst st1; cbn [waiting_for]; lia|].
        exists st'. rewrite Hc, Hw', Hs, Ho. subst st1.
        cbn [waiting_for final_sum output app]. rewrite Z.add_0_l.
        repeat split; reflexivity.
    + assert (waiting_for st = 0) as Hz by lia.
      pose proof (records_read_nonneg (ev :: evs)) as Hn.
      assert (records_read (ev :: evs) = 0) as H0 by lia.
      exists st. rewrite (no_records _ H0), H0, Hz.
      cbn [map sum_of fold_right]. rewrite app_nil_r, Z.add_0_r.
      repeat split; reflexivity.
Qed.

Lemma all_got_bytes (evs : list read_event) :
  Forall (fun ev => got_bytes ev = true) evs ->
  filter got_bytes evs = evs.
Proof.
  induction 1 as [|ev evs Hev _ IH]; [reflexivity|].
  cbn [filter]. rewrite Hev, IH. reflexivity.
Qed.

(** ** main *)

Lemma prepare_child_count (env : environment) (po po1 : program_options)
    (out err : list string) :
  1 <= child_count po < 2 ^ 16 ->
  prepare env po = Ready po1 out err ->
  1 <= child_count po1 < 2 ^ 16.
Proof.
  intros Hpo. unfold prepare.
  destruct (String.eqb "-" (input_file po)).
  - destruct (negb (block_size po =? 0));
      cbn [child_count set_block_size];
      destruct (child_count po >? 1); intros [= <- _ _];
      cbn [child_count set_child_count set_block_size]; lia.
  - destruct (file_system env (input_file po)); [|discriminate].
    intros [= <- _ _]. exact Hpo.
Qed.

Lemma sizing_child_count (po : program_options) :
  1 <= child_count po < 2 ^ 16 -> 0 <= child_count (sizing po) < 2 ^ 16.
Proof.
  intros Hpo. unfold sizing. destruct (block_size po >? 0).
  - cbn [child_count set_child_count]. unfold Int.u16.
    apply Z.mod_pos_bound. lia.
  - cbn [child_count set_block_size]. lia.
Qed.

(** A run that gets past the options and the look at the input. *)
Lemma main_ready (argv : list (OPTION_KEYS * string)) (env : environment)
    (evs : list read_event) (po0 po1 : program_options)
    (out err : list string) :
  handle_options argv = inr po0 ->
  prepare env po0 = Ready po1 out err ->
  let po2 := sizing po1 in
  let n := Z.to_nat (child_count po2) in
  let list_head := map (nth_child env po2) (seq 0 n) in
  let epoll := map (fun i => fst (pipe_fds env i)) (seq 0 n) in
  main argv env evs
  = match collect evs (mk_coord 0 (child_count po2) epoll out) with
    | Blocked st => mk_run Hang (output st) err list_head po2 st
    | Finished st =>
        mk_run (Exit 0) (output st ++ [final_line st]) err list_head po2 st
    end.
Proof.
  intros Ho Hp. unfold main. rewrite Ho, Hp.
  rewrite spawn_children_eq. reflexivity.
Qed.

Lemma main_ready_children (argv : list (OPTION_KEYS * string))
    (env : environment) (evs : list read_event) (po0 po1 : program_options)
    (out err : list string) :
  handle_options argv = inr po0 ->
  prepare env po0 = Ready po1 out err ->
  options (main argv env evs) = sizing po1 /\
  children (main argv env evs)
  = map (nth_child env (sizing po1))
        (seq 0 (Z.to_nat (child_count (sizing po1)))) /\
  stderr (main argv env evs) = err.
Proof.
  intros Ho Hp. rewrite (main_ready _ _ _ _ _ _ _ Ho Hp).
  destruct (collect _ _); cbn; auto.
Qed.

(** A run in which as many reads return bytes as there are children ends
    with the lines of those reads and the line of the final sum. *)
Lemma main_all_read (argv : list (OPTION_KEYS * string)) (env : environment)
    (evs : list read_event) (po0 po1 : program_options)
    (out err : list string) :
  handle_options argv = inr po0 ->
  prepare env po0 = Ready po1 out err ->
  records_read evs = child_count (sizing po1) ->
  let r := main argv env evs in
  result r = Exit 0 /\
  stdout r
  = out ++ map child_line (records_of evs)
        ++ [("Final Sum: " ++ decimal (reported_sum r))%string] /\
  reported_sum r = Int.u64 (sum_of (records_of evs)).
Proof.
  intros Ho Hp Hn r. subst r. rewrite (main_ready _ _ _ _ _ _ _ Ho Hp).
  pose proof (handle_options_child_count _ _ Ho) as H0.
  pose proof (prepare_child_count _ _ _ _ _ H0 Hp) as H1.
  pose proof (sizing_child_count _ H1) as H2.
  set (st0 := mk_coord 0 _ _ out).
  destruct (collect_end evs st0) as (st' & Hc & Hw & Hs & Hout);
    [exact H2|subst st0; cbn [waiting_for]; lia|].
  rewrite Hc. subst st0. cbn [waiting_for final_sum output] in *.
  rewrite Hn, Z.eqb_refl. unfold reported_sum, final_line.
  cbn [result stdout coord]. rewrite Hout, Hs, Z.add_0_l, <- app_assoc.
  repeat split; reflexivity.
Qed.

(** Fewer reads with bytes than children: the run never leaves the loop. *)
Lemma main_too_few (argv : list (OPTION_KEYS * string)) (env : environment)
    (evs : list read_event) (po0 po1 : program_options)
    (out err : list string) :
  handle_options argv = inr po0 ->
  prepare env po0 = Ready po1 out err ->
  records_read evs < child_count (sizing po1) ->
  let r := main argv env evs in
  result r = Hang /\
  waiting_for (coord r) = child_count (sizing po1) - records_read evs /\
  reported_sum r = Int.u64 (sum_of (records_of evs)).
Proof.
  intros Ho Hp Hn r. subst r. rewrite (main_ready _ _ _ _ _ _ _ Ho Hp).
  pose proof (handle_options_child_count _ _ Ho) as H0.
  pose proof (prepare_child_count _ _ _ _ _ H0 Hp) as H1.
  pose proof (sizing_child_count _ H1) as H2.
  set (st0 := mk_coord 0 _ _ out).
  destruct (collect_end evs st0) as (st' & Hc & Hw & Hs & Hout);
    [exact H2|subst st0; cbn [waiting_for]; lia|].
  rewrite Hc. subst st0. cbn [waiting_for final_sum output] in *.
  replace (records_read evs =? child_count (sizing po1)) with false by lia.
  unfold reported_sum. cbn [result coord]. rewrite Hs, Hw, Z.add_0_l.
  repeat split; reflexivity.
Qed.

(** The events of the records of the children, in whatever order. *)
Lemma deliveries_read (env : environment) (po : program_options)
    (l : list child_info) (evs : list read_event) :
  Permutation evs (map (delivered po env) l) ->
  filter got_bytes evs = evs /\
  records_read evs = Z.of_nat (length l) /\
  Permutation (records_of evs) (map (child_handler po env) l).
Proof.
  intros HP.
  assert (filter got_bytes evs = evs) as Hf.
  { apply all_got_bytes.
    apply (Permutation_Forall (Permutation_sym HP)).
    apply Forall_forall. intros ev Hin. apply in_map_iff in Hin.
    destruct Hin as (ci & <- & _). reflexivity. }
  split; [exact Hf|]. unfold records_read, records_of. rewrite Hf. split.
  - rewrite (Permutation_length HP), length_map. reflexivity.
  - replace (map (child_handler po env) l)
      with (map ev_result (map (delivered po env) l))
      by (rewrite map_map; reflexivity).
    apply Permutation_map. exact HP.
Qed.

(** * The claims *)

(** ** The scan of one child *)

(** C6. The record a single child computes carries the sum of the
    specification's reference scan, for every byte sequence: for the whole
    stream in [handle_stdin], for the bytes of the block in [handle_file].
    That sum is the sum, modulo 2^64, of the complete groups of three of the
    digits of the input, whatever lies between the digits; an incomplete
    last group adds nothing.  "abc123def456" gives 579 and "12 3" gives
    123. *)
Theorem child_sum_is_reference_scan :
  (forall stream num,
      handle_stdin stream num
      = mk_child_result num (reference_scan stream [] 0)) /\
  (forall stream num seek_to read_to,
      handle_file stream num seek_to read_to
      = mk_child_result
          num (reference_scan (file_reads stream seek_to read_to) [] 0)) /\
  (forall stream num,
      sum (handle_stdin stream num) = Int.u64 (group_sum (digits stream))) /\
  sum (handle_stdin (bytes "abc123def456") 0) = 579 /\
  sum (handle_stdin (bytes "12 3") 0) = 123.
Proof.
  repeat split.
  - intros stream num.
    pose proof (handle_stdin_reference stream num) as H.
    unfold handle_stdin in *. cbn [sum] in H. rewrite H. reflexivity.
  - intros stream num seek_to read_to. unfold handle_file.
    rewrite file_loop_reads. f_equal.
    apply (stdin_loop_reference _ scan_init []), holds_init.
  - apply handle_stdin_groups.
Qed.

(** ** Failed and short reads *)

Lemma filter_shorter (evs : list read_event) (ev : read_event) :
  In ev evs -> got_bytes ev = false ->
  records_read evs < Z.of_nat (length evs).
Proof.
  unfold records_read. induction evs as [|e evs IH]; intros Hin Hev.
  - destruct Hin.
  - cbn [filter length]. pose proof (filter_length_le got_bytes evs).
    destruct Hin as [->|Hin].
    + rewrite Hev. lia.
    + specialize (IH Hin Hev). destruct (got_bytes e); cbn [length]; lia.
Qed.

(** C1, as the code has it.  A read that returns no byte leaves
    [waiting_for] and [final_sum] as they are and only takes the descriptor
    out of the epoll set.  So in a run in which every pipe is reported at
    most once and one of them is closed without a record, the failed child
    adds nothing to the sum, [waiting_for] stays above 0 and the parent
    never leaves the loop. *)
Theorem failed_child_keeps_parent_waiting
    (argv : list (OPTION_KEYS * string)) (env : environment)
    (evs : list read_event) (ev : read_event)
    (po0 po1 : program_options) (out err : list string) :
  handle_options argv = inr po0 ->
  prepare env po0 = Ready po1 out err ->
  Z.of_nat (length evs) <= child_count (sizing po1) ->
  In ev evs ->
  ev_bytes ev <= 0 ->
  (forall st,
      handle_event ev st
      = mk_coord (final_sum st) (waiting_for st)
                 (epoll_del (ev_fd ev) (epoll_set st)) (output st)) /\
  result (main argv env evs) = Hang /\
  0 < waiting_for (coord (main argv env evs)) /\
  reported_sum (main argv env evs) = Int.u64 (sum_of (records_of evs)).
Proof.
  intros Ho Hp Hlen Hin Hb.
  assert (got_bytes ev = false) as Hev by (unfold got_bytes; lia).
  split; [intros st; apply handle_event_none, Hev|].
  pose proof (filter_shorter evs ev Hin Hev) as Hlt.
  destruct (main_too_few argv env evs po0 po1 out err Ho Hp) as (Hr & Hw & Hs);
    [lia|].
  rewrite Hr, Hw, Hs. repeat split; try reflexivity. lia.
Qed.

Lemma failed_child_keeps_parent_waiting_witness :
  result (main one_child_argv (one_file (bytes "123")) [closed_without_record])
  = Hang /\
  0 < waiting_for
        (coord (main one_child_argv (one_file (bytes "123"))
                     [closed_without_record])).
Proof.
  refine (let H := failed_child_keeps_parent_waiting
                     one_child_argv (one_file (bytes "123"))
                     [closed_without_record] closed_without_record
                     _ _ _ _ eq_refl eq_refl _ _ _ in _).
  - destruct H as (_ & Hr & Hw & _). split; [exact Hr|exact Hw].
  Unshelve.
  + vm_compute. discriminate.
  + left. reflexivity.
  + vm_compute. discriminate.
Defined.

(** C1, as the specification states it, fails: one child, its pipe closed
    without a record.  [waiting_for] is still 1 after the read, and the run
    does not end. *)
Lemma failed_child_is_not_counted :
  waiting_for (handle_event closed_without_record (mk_coord 0 1 [4] [])) = 1 /\
  result (main one_child_argv (one_file (bytes "123")) [closed_without_record])
  = Hang.
Proof. split; vm_compute; reflexivity. Qed.

(** C2, as the code has it.  A read of more than zero and fewer than
    [sizeof (struct child_result)] bytes is handled exactly like the read
    of a whole record: the line of the child is printed from what [result]
    holds, its [sum] field is added to [final_sum], and the child counts as
    done. *)
Theorem short_read_taken_as_record (ev : read_event) (st : coordinator) :
  0 < ev_bytes ev < sizeof_child_result ->
  handle_event ev st
  = handle_event (mk_event (ev_fd ev) sizeof_child_result (ev_result ev)) st /\
  output (handle_event ev st) = output st ++ [child_line (ev_result ev)] /\
  final_sum (handle_event ev st)
  = Int.long (Int.u64 (final_sum st) + sum (ev_result ev)) /\
  waiting_for (handle_event ev st) = Int.u16 (waiting_for st - 1).
Proof.
  intros Hb.
  assert (got_bytes ev = true) as Hev by (unfold got_bytes; lia).
  rewrite (handle_event_got ev st Hev).
  rewrite (handle_event_got (mk_event _ _ _) st) by reflexivity.
  repeat split; reflexivity.
Qed.

Lemma short_read_taken_as_record_witness :
  0 < ev_bytes twelve_bytes < sizeof_child_result /\
  output (handle_event twelve_bytes (mk_coord 0 1 [4] []))
  = [] ++ [child_line (ev_result twelve_bytes)].
Proof.
  assert (0 < ev_bytes twelve_bytes < sizeof_child_result) as Hb
    by (vm_compute; split; reflexivity).
  split; [exact Hb|].
  exact (proj1 (proj2 (short_read_taken_as_record
                         twelve_bytes (mk_coord 0 1 [4] []) Hb))).
Defined.

(** C2, as the specification states it, fails: twelve bytes arrive, a line
    is printed for them and 300 is added to the sum. *)
Lemma short_read_is_not_discarded :
  0 < ev_bytes twelve_bytes < sizeof_child_result /\
  handle_event twelve_bytes (mk_coord 0 1 [4] [])
  = mk_coord 300 0 [] ["Child 1 Sum: 300"%string].
Proof. split; [split; reflexivity|vm_compute; reflexivity]. Qed.

(** ** A child count of zero *)

(** C3 at a file of five bytes with [--block-size 10]: the child count is
    computed as 0, no child is created, and the run prints the file size
    and a final sum of 0 and returns 0.  Asking for zero children with
    [--child-count 0] is refused by [parse_opt]. *)
Theorem zero_children_run_succeeds :
  child_count (options (main block_of_ten_argv (one_file (bytes "12345")) []))
  = 0 /\
  children (main block_of_ten_argv (one_file (bytes "12345")) []) = [] /\
  result (main block_of_ten_argv (one_file (bytes "12345")) []) = Exit 0 /\
  stdout (main block_of_ten_argv (one_file (bytes "12345")) [])
  = ["File size: 5"%string; "Final Sum: 0"%string] /\
  handle_options [(INPUT_FILE, "in.dat"%string); (CHILD_COUNT, "0"%string)]
  = inl EXIT_FAILURE.
Proof. repeat split; vm_compute; reflexivity. Qed.

(** ** The order of arrival *)

Lemma got_bytes_permutation (evs1 evs2 : list read_event) :
  Permutation evs1 evs2 ->
  Forall (fun ev => ev_bytes ev > 0) evs1 ->
  records_of evs1 = map ev_result evs1 /\
  records_of evs2 = map ev_result evs2 /\
  records_read evs1 = Z.of_nat (length evs1) /\
  records_read evs2 = Z.of_nat (length evs1).
Proof.
  intros HP Hall.
  assert (forall evs, Forall (fun ev => ev_bytes ev > 0) evs ->
                      filter got_bytes evs = evs) as Hf.
  { intros evs H. apply all_got_bytes. revert H. apply Forall_impl.
    intros ev Hev. unfold got_bytes. lia. }
  pose proof (Permutation_Forall HP Hall) as Hall2.
  unfold records_of, records_read. rewrite (Hf _ Hall), (Hf _ Hall2).
  rewrite (Permutation_length HP). auto.
Qed.

(** C10. For a command line and an environment, and records that all
    arrive (at most one for every child), two orders of arrival end the
    run the same way and with the same reported sum; a run that ends prints
    the same last line. *)
Theorem final_sum_independent_of_arrival_order
    (argv : list (OPTION_KEYS * string)) (env : environment)
    (evs1 evs2 : list read_event) :
  Permutation evs1 evs2 ->
  Forall (fun ev => ev_bytes ev > 0) evs1 ->
  Z.of_nat (length evs1) <= child_count (options (main argv env evs1)) ->
  result (main argv env evs1) = result (main argv env evs2) /\
  reported_sum (main argv env evs1) = reported_sum (main argv env evs2) /\
  (result (main argv env evs1) = Exit 0 ->
   last (stdout (main argv env evs1)) ""%string
   = last (stdout (main argv env evs2)) ""%string).
Proof.
  intros HP Hall Hlen.
  destruct (handle_options argv) as [status|po0] eqn:Ho.
  { unfold main. rewrite Ho. auto. }
  destruct (prepare env po0) as [status err|po1 out err] eqn:Hp.
  { unfold main. rewrite Ho, Hp. auto. }
  destruct (main_ready_children argv env evs1 po0 po1 out err Ho Hp)
    as (Hopt & _ & _).
  rewrite Hopt in Hlen.
  destruct (got_bytes_permutation evs1 evs2 HP Hall) as (R1 & R2 & N1 & N2).
  assert (sum_of (records_of evs1) = sum_of (records_of evs2)) as Hsum.
  { rewrite R1, R2. apply sum_of_permutation, Permutation_map, HP. }
  destruct (Z.eq_dec (Z.of_nat (length evs1)) (child_count (sizing po1)))
    as [Heq|Hne].
  - destruct (main_all_read argv env evs1 po0 po1 out err Ho Hp)
      as (Hr1 & Hs1 & Ht1); [lia|].
    destruct (main_all_read argv env evs2 po0 po1 out err Ho Hp)
      as (Hr2 & Hs2 & Ht2); [lia|].
    rewrite Hr1, Hr2, Hs1, Hs2, Ht1, Ht2, Hsum.
    repeat split. intros _. rewrite !app_assoc, !last_last. reflexivity.
  - destruct (main_too_few argv env evs1 po0 po1 out err Ho Hp)
      as (Hr1 & _ & Ht1); [lia|].
    destruct (main_too_few argv env evs2 po0 po1 out err Ho Hp)
      as (Hr2 & _ & Ht2); [lia|].
    rewrite Hr1, Hr2, Ht1, Ht2, Hsum. repeat split. discriminate.
Qed.

Lemma final_sum_independent_of_arrival_order_witness :
  reported_sum
    (main two_children_argv (one_file (bytes "000111222333"))
          [mk_event 4 16 (mk_child_result 0 111);
           mk_event 6 16 (mk_child_result 1 555)])
  = reported_sum
      (main two_children_argv (one_file (bytes "000111222333"))
            [mk_event 6 16 (mk_child_result 1 555);
             mk_event 4 16 (mk_child_result 0 111)]).
Proof.
  refine (proj1 (proj2 (final_sum_independent_of_arrival_order
                          two_children_argv
                          (one_file (bytes "000111222333")) _ _ _ _ _))).
  - apply perm_swap.
  - repeat constructor.
  - vm_compute. discriminate.
Defined.

(** ** Invariants of the collecting loop *)

Lemma collect_snoc (evs : list read_event) (ev : read_event) :
  forall st,
    collect (evs ++ [ev]) st
    = match collect evs st with
      | Finished s => Finished s
      | Blocked s => collect [ev] s
      end.
Proof.
  induction evs as [|e evs IH]; intros st.
  - cbn [app collect]. destruct (waiting_for st >? 0) eqn:Hw; [|reflexivity].
    cbn [collect]. rewrite Hw. reflexivity.
  - cbn [app collect]. destruct (waiting_for st >? 0); [apply IH|reflexivity].
Qed.

Lemma collect_waiting (evs : list read_event) :
  forall st,
    match collect evs st with
    | Finished s => waiting_for s <= 0
    | Blocked s => 0 < waiting_for s
    end.
Proof.
  induction evs as [|e evs IH]; intros st; cbn [collect].
  - destruct (waiting_for st >? 0) eqn:Hw; lia.
  - destruct (waiting_for st >? 0) eqn:Hw; [apply IH|lia].
Qed.

Lemma collect_bounds (evs : list read_event) :
  forall st,
    0 <= waiting_for st < 2 ^ 16 ->
    0 <= waiting_for (loop_state (collect evs st)) <= waiting_for st.
Proof.
  induction evs as [|e evs IH]; intros st Hw; cbn [collect].
  - destruct (waiting_for st >? 0); cbn [loop_state]; lia.
  - destruct (waiting_for st >? 0) eqn:Hgt; [|cbn [loop_state]; lia].
    assert (0 <= waiting_for (handle_event e st) <= waiting_for st) as H1.
    { destruct (got_bytes e) eqn:He.
      - rewrite (handle_event_got _ _ He). cbn [waiting_for].
        unfold Int.u16. rewrite Z.mod_small by lia. lia.
      - rewrite (handle_event_none _ _ He). cbn [waiting_for]. lia. }
    specialize (IH (handle_event e st)). lia.
Qed.

(** One more event: the body of the loop runs once more if children are
    still waited for, and nothing changes otherwise. *)
Lemma collect_one_more (evs : list read_event) (ev : read_event)
    (st : coordinator) :
  loop_state (collect (evs ++ [ev]) st)
  = if waiting_for (loop_state (collect evs st)) >? 0
    then handle_event ev (loop_state (collect evs st))
    else loop_state (collect evs st).
Proof.
  rewrite collect_snoc. pose proof (collect_waiting evs st) as Hw.
  destruct (collect evs st) as [s|s]; cbn [loop_state].
  - replace (waiting_for s >? 0) with false by lia. reflexivity.
  - replace (waiting_for s >? 0) with true by lia.
    cbn [collect]. replace (waiting_for s >? 0) with true by lia.
    destruct (waiting_for (handle_event ev s) >? 0); reflexivity.
Qed.

Lemma main_coord (argv : list (OPTION_KEYS * string)) (env : environment)
    (evs : list read_event) (po0 po1 : program_options)
    (out err : list string) :
  handle_options argv = inr po0 ->
  prepare env po0 = Ready po1 out err ->
  coord (main argv env evs)
  = loop_state
      (collect evs
         (mk_coord 0 (child_count (sizing po1))
            (map (fun i => fst (pipe_fds env i))
                 (seq 0 (Z.to_nat (child_count (sizing po1))))) out)).
Proof.
  intros Ho Hp. rewrite (main_ready _ _ _ _ _ _ _ Ho Hp).
  destruct (collect _ _); reflexivity.
Qed.

Lemma nth_child_listed (env : environment) (po : program_options)
    (n i : nat) :
  (i < n)%nat ->
  nth_error (map (nth_child env po) (seq 0 n)) i = Some (nth_child env po i).
Proof.
  intros Hi. rewrite nth_error_map.
  rewrite (nth_error_nth' _ 0%nat) by (rewrite length_seq; exact Hi).
  rewrite seq_nth by exact Hi. reflexivity.
Qed.

(** C9, as the code has it.  In every run that gets to the loop, with [evs]
    the events handled so far and [ev] the next one: [waiting_for] starts
    at the child count and never grows; [final_sum] changes only when the
    read returned more than zero bytes (a whole record or a part of one),
    and then by the [sum] field of [result], modulo 2^64, while
    [waiting_for] drops by one; and the children created are numbered
    0, 1, ... in the order of their blocks, one node each. *)
Theorem collecting_loop_invariants
    (argv : list (OPTION_KEYS * string)) (env : environment)
    (evs : list read_event) (ev : read_event)
    (po0 po1 : program_options) (out err : list string) :
  handle_options argv = inr po0 ->
  prepare env po0 = Ready po1 out err ->
  let r := main argv env evs in
  let r' := main argv env (evs ++ [ev]) in
  let n := child_count (options r) in
  waiting_for (coord (main argv env [])) = n /\
  0 <= waiting_for (coord r') <= waiting_for (coord r) /\
  waiting_for (coord r) <= n /\
  (waiting_for (coord r) = 0 \/ ev_bytes ev <= 0 ->
   final_sum (coord r') = final_sum (coord r) /\
   waiting_for (coord r') = waiting_for (coord r)) /\
  (0 < waiting_for (coord r) -> 0 < ev_bytes ev ->
   reported_sum r' = Int.u64 (reported_sum r + sum (ev_result ev)) /\
   waiting_for (coord r') = waiting_for (coord r) - 1) /\
  length (children r) = Z.to_nat n /\
  (forall i, (i < Z.to_nat n)%nat ->
     nth_error (children r) i = Some (nth_child env (options r) i) /\
     info_num (nth_child env (options r) i) = Z.of_nat i).
Proof.
  intros Ho Hp r r' n. subst r r' n.
  destruct (main_ready_children argv env evs po0 po1 out err Ho Hp)
    as (Hopt & Hch & _).
  rewrite Hopt, Hch.
  rewrite !(main_coord _ _ _ _ _ _ _ Ho Hp).
  unfold reported_sum. rewrite !(main_coord _ _ _ _ _ _ _ Ho Hp).
  pose proof (handle_options_child_count _ _ Ho) as H0.
  pose proof (prepare_child_count _ _ _ _ _ H0 Hp) as H1.
  pose proof (sizing_child_count _ H1) as H2.
  set (st0 := mk_coord 0 _ _ out).
  pose proof (collect_bounds evs st0 H2) as Hb.
  rewrite collect_one_more.
  set (s := loop_state (collect evs st0)) in *.
  assert (waiting_for st0 = child_count (sizing po1)) as Hst0 by reflexivity.
  split.
  { cbn [collect]. destruct (waiting_for st0 >? 0); reflexivity. }
  split.
  { destruct (waiting_for s >? 0) eqn:Hgt; [|lia].
    destruct (got_bytes ev) eqn:He.
    - rewrite (handle_event_got _ _ He). cbn [waiting_for].
      unfold Int.u16. rewrite Z.mod_small by lia. lia.
    - rewrite (handle_event_none _ _ He). cbn [waiting_for]. lia. }
  split; [lia|]. split.
  { intros Hcase. destruct (waiting_for s >? 0) eqn:Hgt; [|auto].
    assert (got_bytes ev = false) as He by (unfold got_bytes; lia).
    rewrite (handle_event_none _ _ He). auto. }
  split.
  { intros Hw Hbytes. replace (waiting_for s >? 0) with true by lia.
    assert (got_bytes ev = true) as He by (unfold got_bytes; lia).
    rewrite (handle_event_got _ _ He). cbn [final_sum waiting_for]. split.
    - rewrite u64_long. reflexivity.
    - unfold Int.u16. apply Z.mod_small. lia. }
  split.
  { rewrite length_map, length_seq. reflexivity. }
  intros i Hi. split; [apply nth_child_listed, Hi|].
  unfold nth_child. cbn [info_num]. unfold Int.u16.
  apply Z.mod_small. lia.
Qed.

Lemma collecting_loop_invariants_witness :
  waiting_for (coord (main two_children_argv (one_file (bytes "000111222333"))
                           []))
  = child_count (options (main two_children_argv
                               (one_file (bytes "000111222333")) [])) /\
  length (children (main two_children_argv
                         (one_file (bytes "000111222333")) [])) = 2%nat.
Proof.
  refine (let H := collecting_loop_invariants
                     two_children_argv (one_file (bytes "000111222333"))
                     [] three_bytes _ _ _ _ eq_refl eq_refl in _).
  destruct H as (H1 & _ & _ & _ & _ & H6 & _).
  split; [exact H1|exact H6].
Defined.

(** C9, as the specification states it, fails: a read of three bytes is
    not a successfully read record, and the loop adds the [sum] field of
    [result] to [final_sum] all the same. *)
Lemma sum_grows_by_a_short_read :
  0 < ev_bytes three_bytes < sizeof_child_result /\
  final_sum (coord (main one_child_argv (one_file (bytes "123")) [])) = 0 /\
  final_sum (coord (main one_child_argv (one_file (bytes "123")) [three_bytes]))
  = 7.
Proof. repeat split; vm_compute; reflexivity. Qed.

(** ** Standard input *)

Lemma parse_opt_st_size (key : OPTION_KEYS) (arg : string)
    (po : program_options) :
  st_size (snd (parse_opt key arg po)) = st_size po.
Proof.
  unfold parse_opt. destruct key; cbn [snd]; try reflexivity.
  - destruct (_used_block po); [reflexivity|].
    destruct (_ <=? 0); reflexivity.
  - destruct (_used_child po); reflexivity.
Qed.

Lemma argp_parse_st_size (argv : list (OPTION_KEYS * string)) :
  forall po, st_size (snd (argp_parse argv po)) = st_size po.
Proof.
  induction argv as [|[key arg] rest IH]; intros po; [reflexivity|].
  cbn [argp_parse]. pose proof (parse_opt_st_size key arg po) as H.
  destruct (parse_opt key arg po) as [e po1]. cbn [snd] in H.
  destruct (e =? 0); [rewrite IH|]; exact H.
Qed.

Lemma handle_options_st_size (argv : list (OPTION_KEYS * string))
    (po : program_options) :
  handle_options argv = inr po -> st_size po = 0.
Proof.
  unfold handle_options.
  pose proof (argp_parse_st_size argv default_options) as H.
  destruct (argp_parse argv default_options) as [e po1]. cbn [snd] in H.
  destruct (e =? ARGP_ERR_UNKNOWN); [discriminate|].
  destruct (negb (e =? 0)); [discriminate|].
  destruct (output_file po1); intros [= <-]; exact H.
Qed.

(** What [prepare] and [sizing] leave of the options when the input is
    standard input. *)
Lemma stdin_sizing (env : environment) (po0 : program_options) :
  st_size po0 = 0 ->
  input_file po0 = "-"%string ->
  exists po1,
    prepare env po0
    = Ready po1 []
        ((if block_size po0 =? 0 then []
          else [warn_block_size (block_size po0)])
         ++ (if child_count po0 >? 1
             then [warn_child_count (child_count po0)] else [])) /\
    (1 <= child_count po0 -> child_count (sizing po1) = 1) /\
    block_size (sizing po1) = 0 /\
    input_file (sizing po1) = "-"%string.
Proof.
  intros Hs Hin. unfold prepare. rewrite Hin. cbn [String.eqb Ascii.eqb].
  change (String.eqb "-" "-") with true. cbv iota.
  destruct (block_size po0 =? 0) eqn:Hb; cbn [negb];
    cbn [child_count set_block_size];
    destruct (child_count po0 >? 1) eqn:Hc;
    eexists; (split; [reflexivity|]);
    unfold sizing;
    cbn [block_size child_count set_child_count set_block_size st_size
         input_file];
    rewrite ?Hs;
    try (apply Z.eqb_eq in Hb; rewrite Hb);
    change (0 >? 0) with false; cbv iota;
    cbn [block_size child_count set_child_count set_block_size st_size
         input_file];
    rewrite ?Zdiv_0_l; (split; [lia|]); split; auto.
Qed.

(** C8. With standard input as the input, whatever block size or child
    count was asked for: one child is created, with child number 0 and the
    open-ended block that starts at 0, and it scans the whole of standard
    input; a warning goes to stderr for a block size that is set and one for
    a child count above 1; and the run goes on into the loop, and ends with
    the two lines of the sum when the record of the child arrives. *)
Theorem stdin_forces_single_child
    (argv : list (OPTION_KEYS * string)) (env : environment)
    (evs : list read_event) (po0 : program_options) :
  handle_options argv = inr po0 ->
  input_file po0 = "-"%string ->
  let r := main argv env evs in
  child_count (options r) = 1 /\
  block_size (options r) = 0 /\
  children r = [mk_child_info (pipe_fds env 0) 0 (Int.u64 (-1)) 0] /\
  (forall ci, In ci (children r) ->
     child_handler (options r) env ci = handle_stdin (stdin_data env) 0) /\
  stderr r
  = (if block_size po0 =? 0 then [] else [warn_block_size (block_size po0)])
    ++ (if child_count po0 >? 1 then [warn_child_count (child_count po0)]
        else []) /\
  (result r = Hang \/ result r = Exit 0) /\
  (evs = deliveries env r ->
   result r = Exit 0 /\
   stdout r
   = [child_line (handle_stdin (stdin_data env) 0);
      ("Final Sum: "
       ++ decimal (sum (handle_stdin (stdin_data env) 0)))%string]).
Proof.
  intros Ho Hin r. subst r.
  pose proof (handle_options_st_size _ _ Ho) as Hs.
  pose proof (handle_options_child_count _ _ Ho) as Hc.
  destruct (stdin_sizing env po0 Hs Hin) as (po1 & Hp & Hn & Hb & Hi).
  specialize (Hn (proj1 Hc)).
  destruct (main_ready_children argv env evs po0 po1 _ _ Ho Hp)
    as (Hopt & Hch & Herr).
  assert (children (main argv env evs)
          = [mk_child_info (pipe_fds env 0) 0 (Int.u64 (-1)) 0]) as Hch1.
  { rewrite Hch, Hn. cbn [Z.to_nat Pos.to_nat Pos.iter_op seq map].
    unfold nth_child, block_bounds. rewrite Hn, Hb. reflexivity. }
  assert (forall ci, In ci (children (main argv env evs)) ->
            child_handler (options (main argv env evs)) env ci
            = handle_stdin (stdin_data env) 0) as Hscan.
  { intros ci Hci. rewrite Hch1 in Hci. destruct Hci as [<-|[]].
    unfold child_handler. rewrite Hopt, Hi. reflexivity. }
  split; [rewrite Hopt; exact Hn|].
  split; [rewrite Hopt; exact Hb|].
  split; [exact Hch1|]. split; [exact Hscan|]. split; [exact Herr|]. split.
  - rewrite (main_ready _ _ _ _ _ _ _ Ho Hp).
    destruct (collect _ _); cbn [result]; auto.
  - intros Hev.
    assert (records_of (deliveries env (main argv env evs))
            = [handle_stdin (stdin_data env) 0]) as Hrec.
    { unfold deliveries. rewrite Hch1. unfold records_of.
      cbn [map filter]. change (got_bytes (delivered _ _ _)) with true.
      cbv iota. cbn [map delivered ev_result]. f_equal.
      apply Hscan. rewrite Hch1. left. reflexivity. }
    rewrite <- Hev in Hrec.
    destruct (main_all_read argv env evs po0 po1 _ _ Ho Hp) as (Hr & Hout & Ht).
    + unfold records_read. unfold records_of in Hrec.
      rewrite <- (length_map ev_result), Hrec, Hn. reflexivity.
    + split; [exact Hr|].
      rewrite Hout, Ht, Hrec. cbn [map app sum_of fold_right].
      rewrite Z.add_0_r.
      assert (Int.u64 (sum (handle_stdin (stdin_data env) 0))
              = sum (handle_stdin (stdin_data env) 0)) as Hu
        by (rewrite handle_stdin_groups; apply u64_small, u64_range).
      rewrite Hu. reflexivity.
Qed.

Lemma stdin_forces_single_child_witness :
  child_count
    (options (main [(BLOCK_SIZE, "20"%string)] (only_stdin (bytes "12 3")) []))
  = 1 /\
  stderr (main [(BLOCK_SIZE, "20"%string)] (only_stdin (bytes "12 3")) [])
  = ["Warn: using stdin... ignoring block size 20."%string].
Proof.
  refine (let H := stdin_forces_single_child
                     [(BLOCK_SIZE, "20"%string)] (only_stdin (bytes "12 3"))
                     [] _ eq_refl eq_refl in _).
  destruct H as (H1 & _ & _ & _ & H5 & _).
  split; [exact H1|exact H5].
Defined.

(** ** The lines of the output *)

Lemma sizing_st_size (po : program_options) : st_size (sizing po) = st_size po.
Proof. unfold sizing. destruct (block_size po >? 0); reflexivity. Qed.

Lemma sizing_input_file (po : program_options) :
  input_file (sizing po) = input_file po.
Proof. unfold sizing. destruct (block_size po >? 0); reflexivity. Qed.

Lemma prepare_out (env : environment) (po0 po1 : program_options)
    (out err : list string) :
  prepare env po0 = Ready po1 out err ->
  input_file po1 = input_file po0 /\
  out = if String.eqb "-" (input_file po0) then []
        else [("File size: " ++ decimal (st_size po1))%string].
Proof.
  unfold prepare. destruct (String.eqb "-" (input_file po0)).
  - destruct (negb (block_size po0 =? 0));
      cbn [child_count set_block_size];
      destruct (child_count po0 >? 1); intros [= <- <- _]; auto.
  - destruct (file_system env (input_file po0)); [|discriminate].
    intros [= <- <- _]. auto.
Qed.

Lemma child_handler_num (po : program_options) (env : environment)
    (ci : child_info) :
  child_num (child_handler po env ci) = info_num ci.
Proof.
  unfold child_handler. destruct (String.eqb (input_file po) "-"); reflexivity.
Qed.

Lemma children_numbers (env : environment) (po : program_options) (n : nat) :
  Z.of_nat n <= 2 ^ 16 ->
  map (fun ci => child_num (child_handler po env ci))
      (map (nth_child env po) (seq 0 n))
  = map Z.of_nat (seq 0 n).
Proof.
  intros Hn. rewrite map_map. apply map_ext_in. intros i Hi.
  apply in_seq in Hi. rewrite child_handler_num.
  unfold nth_child. cbn [info_num]. unfold Int.u16. apply Z.mod_small. lia.
Qed.

(** C4, as the code has it.  In every run in which the record of every
    child arrives whole, in whatever order: the run returns 0; its output is
    the line "File size: <L>" when the input is a file (and nothing when it
    is standard input), then one line "Child <id> Sum: <sum>" for every
    record in the order of arrival, then the single line
    "Final Sum: <sum>"; the records are those of the children, one each, and
    the children are numbered 0, 1, ... *)
Theorem output_lines_of_a_whole_run
    (argv : list (OPTION_KEYS * string)) (env : environment)
    (evs : list read_event) (po0 po1 : program_options)
    (out err : list string) :
  handle_options argv = inr po0 ->
  prepare env po0 = Ready po1 out err ->
  Permutation evs (deliveries env (main argv env evs)) ->
  let r := main argv env evs in
  result r = Exit 0 /\
  stdout r
  = out ++ map child_line (map ev_result evs)
        ++ [("Final Sum: " ++ decimal (reported_sum r))%string] /\
  out = (if String.eqb "-" (input_file po0) then []
         else [("File size: " ++ decimal (st_size (options r)))%string]) /\
  Permutation (map ev_result evs)
              (map (child_handler (options r) env) (children r)) /\
  map (fun ci => child_num (child_handler (options r) env ci)) (children r)
  = map Z.of_nat (seq 0 (Z.to_nat (child_count (options r)))).
Proof.
  intros Ho Hp HP r. subst r.
  destruct (main_ready_children argv env evs po0 po1 out err Ho Hp)
    as (Hopt & Hch & _).
  pose proof (handle_options_child_count _ _ Ho) as H0.
  pose proof (prepare_child_count _ _ _ _ _ H0 Hp) as H1.
  pose proof (sizing_child_count _ H1) as H2.
  unfold deliveries in HP.
  destruct (deliveries_read env _ _ evs HP) as (Hf & Hn & Hrec).
  assert (records_of evs = map ev_result evs) as Hro
    by (unfold records_of; rewrite Hf; reflexivity).
  destruct (main_all_read argv env evs po0 po1 out err Ho Hp)
    as (Hr & Hout & _).
  { rewrite Hn, Hch, length_map, length_seq. lia. }
  rewrite Hro in Hout, Hrec.
  destruct (prepare_out env po0 po1 out err Hp) as (_ & Hfile).
  split; [exact Hr|]. split; [exact Hout|]. split.
  { rewrite Hopt, sizing_st_size. exact Hfile. }
  split; [exact Hrec|].
  rewrite Hch, Hopt. apply children_numbers. lia.
Qed.

Lemma output_lines_of_a_whole_run_witness :
  stdout (main two_children_argv (one_file (bytes "000111222333"))
               [mk_event 6 16 (mk_child_result 1 555);
                mk_event 4 16 (mk_child_result 0 111)])
  = ["File size: 12"%string]
      ++ map child_line [mk_child_result 1 555; mk_child_result 0 111]
      ++ [("Final Sum: "
           ++ decimal
                (reported_sum
                   (main two_children_argv (one_file (bytes "000111222333"))
                         [mk_event 6 16 (mk_child_result 1 555);
                          mk_event 4 16 (mk_child_result 0 111)])))%string].
Proof.
  refine (proj1 (proj2 (output_lines_of_a_whole_run
                          two_children_argv
                          (one_file (bytes "000111222333"))
                          [mk_event 6 16 (mk_child_result 1 555);
                           mk_event 4 16 (mk_child_result 0 111)]
                          _ _ _ _ eq_refl eq_refl _))).
  vm_compute. apply perm_swap.
Defined.

(** C4, as the specification states it, fails on the text of the line: for
    "abc123def456" and one child the output has the line
    "Child 0 Sum: 579", and the line "Worker 0 Sum: 579" is not in it. *)
Lemma worker_line_reads_child :
  stdout (whole_run one_child_argv (one_file (bytes "abc123def456")))
  = ["File size: 12"%string; "Child 0 Sum: 579"%string;
     "Final Sum: 579"%string] /\
  ~ In (spec_worker_line 0 579)
       (stdout (whole_run one_child_argv (one_file (bytes "abc123def456")))).
Proof.
  assert (stdout (whole_run one_child_argv (one_file (bytes "abc123def456")))
          = ["File size: 12"%string; "Child 0 Sum: 579"%string;
             "Final Sum: 579"%string]) as H
    by (vm_compute; reflexivity).
  split; [exact H|]. rewrite H.
  intros [Hin|[Hin|[Hin|[]]]]; vm_compute in Hin; discriminate.
Qed.

(** ** The blocks of a file *)

(** Cutting a list into [n] pieces of [s] items and a rest loses and
    repeats nothing. *)
Lemma pieces_and_rest {A : Type} (l : list A) (s n : nat) :
  concat (map (fun i => firstn s (skipn (i * s) l)) (seq 0 n))
  ++ skipn (n * s) l
  = l.
Proof.
  induction n as [|n IH]; [reflexivity|].
  rewrite seq_S, map_app, concat_app. cbn [Nat.add map concat].
  rewrite app_nil_r, <- app_assoc.
  replace (S n * s)%nat with (s + n * s)%nat by lia.
  rewrite <- skipn_skipn, firstn_skipn. exact IH.
Qed.

Lemma int_small (z : Z) : 0 <= z < 2 ^ 31 -> Int.int z = z.
Proof.
  intros H. unfold Int.int. rewrite Z.mod_small by lia.
  replace (z <? 2 ^ 31) with true by lia. reflexivity.
Qed.

Lemma long_small (z : Z) : 0 <= z < 2 ^ 63 -> Int.long z = z.
Proof.
  intros H. unfold Int.long. rewrite Z.mod_small by lia.
  replace (z <? 2 ^ 63) with true by lia. reflexivity.
Qed.

Section Blocks.

Variable env : environment.
Variable po : program_options.

(** The file is shorter than 2 GiB, and the sizes are as [sizing] leaves
    them for a file that is at least as long as there are children. *)
Hypothesis size_small : 0 <= st_size po < 2 ^ 31.
Hypothesis count_pos : 1 <= child_count po.
Hypothesis size_pos : child_count po = 1 \/ 1 <= block_size po.
Hypothesis size_nonneg : 0 <= block_size po.
Hypothesis fits : child_count po * block_size po <= st_size po.

Lemma inner_child (i : nat) :
  Z.of_nat i < child_count po - 1 ->
  nth_child env po i
  = mk_child_info (pipe_fds env i)
                  (Z.of_nat i * block_size po)
                  ((Z.of_nat i + 1) * block_size po - 1)
                  (Int.u16 (Z.of_nat i)).
Proof using size_small count_pos size_pos size_nonneg fits.
  intros Hi. unfold nth_child, block_bounds. cbn [fst snd].
  replace (Z.of_nat i + 1 =? child_count po) with false by lia.
  assert (1 <= block_size po) as Hs by lia.
  assert (0 <= Z.of_nat i * block_size po) as H1 by nia.
  assert ((Z.of_nat i + 1) * block_size po <= st_size po) as H2 by nia.
  assert (Z.of_nat i * block_size po < (Z.of_nat i + 1) * block_size po)
    as H3 by nia.
  rewrite (u64_small (Z.of_nat i * block_size po)) by lia.
  rewrite (u64_small ((Z.of_nat i + 1) * block_size po - 1)) by lia.
  rewrite !int_small by lia. rewrite !u64_small by lia. reflexivity.
Qed.

Lemma last_child (i : nat) :
  Z.of_nat i = child_count po - 1 ->
  nth_child env po i
  = mk_child_info (pipe_fds env i) (Z.of_nat i * block_size po)
                  (Int.u64 (-1)) (Int.u16 (Z.of_nat i)).
Proof using size_small count_pos size_pos size_nonneg fits.
  intros Hi. unfold nth_child, block_bounds. cbn [fst snd].
  replace (Z.of_nat i + 1 =? child_count po) with true by lia.
  assert (0 <= Z.of_nat i * block_size po) as H1 by nia.
  assert (Z.of_nat i * block_size po <= st_size po) as H2 by nia.
  rewrite (u64_small (Z.of_nat i * block_size po)) by lia.
  rewrite !int_small by lia. rewrite !u64_small by lia. reflexivity.
Qed.

Variable A : Type.
Variable file : list A.
Hypothesis file_length : Z.of_nat (length file) = st_size po.

Lemma inner_child_reads (i : nat) :
  Z.of_nat i < child_count po - 1 ->
  child_reads file po (nth_child env po i)
  = firstn (Z.to_nat (block_size po))
           (skipn (i * Z.to_nat (block_size po)) file).
Proof using size_small count_pos size_pos size_nonneg fits.
  intros Hi. rewrite (inner_child i Hi). unfold child_reads.
  cbn [seek_to read_to].
  assert (1 <= block_size po) as Hs by lia.
  assert (0 <= Z.of_nat i * block_size po) as H1 by nia.
  assert ((Z.of_nat i + 1) * block_size po <= st_size po) as H2 by nia.
  unfold fseek. rewrite long_small by lia.
  replace (Z.of_nat i * block_size po <? 0) with false by lia.
  unfold effective_read_to.
  replace ((Z.of_nat i + 1) * block_size po - 1 =? Int.u64 (-1)) with false
    by (change (Int.u64 (-1)) with (2 ^ 64 - 1); lia).
  rewrite file_reads_firstn by lia. f_equal; [lia|]. f_equal. nia.
Qed.

Lemma last_child_reads (i : nat) :
  Z.of_nat i = child_count po - 1 ->
  child_reads file po (nth_child env po i)
  = skipn (i * Z.to_nat (block_size po)) file.
Proof using size_small count_pos size_pos size_nonneg fits file_length.
  intros Hi. rewrite (last_child i Hi). unfold child_reads.
  cbn [seek_to read_to].
  assert (0 <= Z.of_nat i * block_size po) as H1 by nia.
  assert (Z.of_nat i * block_size po <= st_size po) as H2 by nia.
  unfold fseek. rewrite long_small by lia.
  replace (Z.of_nat i * block_size po <? 0) with false by lia.
  unfold effective_read_to. rewrite Z.eqb_refl.
  rewrite u64_small by lia. rewrite file_reads_firstn by lia.
  replace (Z.to_nat (Z.of_nat i * block_size po))
    with (i * Z.to_nat (block_size po))%nat by nia.
  apply firstn_all2. rewrite length_skipn. nia.
Qed.

(** The children read the file piece after piece. *)
Lemma children_read_all :
  concat (map (child_reads file po)
              (map (nth_child env po)
                   (seq 0 (Z.to_nat (child_count po)))))
  = file.
Proof using size_small count_pos size_pos size_nonneg fits file_length.
  replace (Z.to_nat (child_count po))
    with (S (Z.to_nat (child_count po - 1))) by lia.
  set (n := Z.to_nat (child_count po - 1)).
  rewrite seq_S, !map_app, concat_app. cbn [Nat.add map concat].
  rewrite app_nil_r, map_map.
  rewrite last_child_reads by lia.
  etransitivity;
    [|apply (pieces_and_rest file (Z.to_nat (block_size po)) n)].
  f_equal. f_equal. apply map_ext_in. intros i Hi. apply in_seq in Hi.
  apply inner_child_reads. lia.
Qed.

End Blocks.

Lemma length_offsets (n : nat) : length (offsets n) = n.
Proof. unfold offsets. rewrite length_map, length_seq. reflexivity. Qed.

(** What [prepare] and [sizing] leave of the options when the input is a
    file shorter than 2 GiB. *)
Lemma file_sizing (env : environment) (po0 : program_options)
    (content : list byte) :
  1 <= child_count po0 ->
  input_file po0 <> "-"%string ->
  file_system env (input_file po0) = Some content ->
  Z.of_nat (length content) < 2 ^ 31 ->
  let po1 := set_st_size po0 (Z.of_nat (length content)) in
  prepare env po0
  = Ready po1 [("File size: " ++ decimal (st_size po1))%string] [] /\
  st_size (sizing po1) = Z.of_nat (length content) /\
  0 <= block_size (sizing po1) /\
  child_count (sizing po1) * block_size (sizing po1)
  <= Z.of_nat (length content) /\
  (if block_size po0 >? 0
   then block_size (sizing po1) = block_size po0 /\
        child_count (sizing po1)
        = Int.u16 (Z.of_nat (length content) / block_size po0)
   else child_count (sizing po1) = child_count po0 /\
        block_size (sizing po1)
        = Z.of_nat (length content) / child_count po0).
Proof.
  intros Hc Hin Hfs HL po1. subst po1.
  assert (String.eqb "-" (input_file po0) = false) as Hneq.
  { apply String.eqb_neq. intros H. apply Hin. symmetry. exact H. }
  split.
  { unfold prepare. rewrite Hneq, Hfs. reflexivity. }
  rewrite sizing_st_size. cbn [st_size set_st_size]. split; [reflexivity|].
  set (L := Z.of_nat (length content)) in *.
  assert (0 <= L) as HL0 by lia.
  unfold sizing. cbn [block_size set_st_size st_size child_count].
  destruct (block_size po0 >? 0) eqn:Hb;
    cbn [block_size child_count set_child_count set_block_size set_st_size].
  - rewrite (u64_small L) by lia.
    assert (0 <= Int.u16 (L / block_size po0) <= L / block_size po0) as Hn.
    { unfold Int.u16. assert (0 <= L / block_size po0)
        by (apply Z.div_pos; lia).
      split; [apply Z.mod_pos_bound; lia|apply Z.mod_le; lia]. }
    pose proof (Z.mul_div_le L (block_size po0)).
    repeat split; try lia. nia.
  - assert (0 <= L / child_count po0 <= L) as Hd.
    { split; [apply Z.div_pos; lia|].
      apply Z.div_le_upper_bound; [lia|nia]. }
    rewrite u64_small by lia.
    pose proof (Z.mul_div_le L (child_count po0)).
    repeat split; lia.
Qed.

(** X15. For a file of [L] bytes, [L] below 2^31, and an
    effective child count [N] of at least 1 that is 1 or at most [L]: the
    effective sizes are [S] as given and [N = floor (L / S)] (kept in 16
    bits), or [N] as given and [S = floor (L / N)]; [N] children are
    created; child [i] for [i < N - 1] has the block from [i * S] to
    [(i + 1) * S - 1]; the last child has the open-ended block from
    [(N - 1) * S], and reads to the end of the file; and the parts of the
    file the children read, in the order of the children, put one after
    the other, are the file: no byte is left out and none is read twice. *)
Theorem blocks_partition_the_file
    (argv : list (OPTION_KEYS * string)) (env : environment)
    (evs : list read_event) (po0 : program_options) (content : list byte) :
  handle_options argv = inr po0 ->
  input_file po0 <> "-"%string ->
  file_system env (input_file po0) = Some content ->
  Z.of_nat (length content) < 2 ^ 31 ->
  let r := main argv env evs in
  let L := Z.of_nat (length content) in
  let N := child_count (options r) in
  let S := block_size (options r) in
  1 <= N ->
  N = 1 \/ N <= L ->
  (if block_size po0 >? 0
   then S = block_size po0 /\ N = Int.u16 (L / S)
   else N = child_count po0 /\ S = L / N) /\
  length (children r) = Z.to_nat N /\
  (forall i : nat,
      Z.of_nat i < N - 1 ->
      nth_error (children r) i
      = Some (mk_child_info (pipe_fds env i) (Z.of_nat i * S)
                            ((Z.of_nat i + 1) * S - 1) (Z.of_nat i))) /\
  (forall i : nat,
      Z.of_nat i = N - 1 ->
      nth_error (children r) i
      = Some (mk_child_info (pipe_fds env i) (Z.of_nat i * S)
                            (Int.u64 (-1)) (Z.of_nat i)) /\
      nth_error (blocks content r) i
      = Some (skipn (i * Z.to_nat S) content)) /\
  concat (blocks (offsets (length content)) r) = offsets (length content) /\
  concat (blocks content r) = content.
Proof.
  intros Ho Hin Hfs HL r L N S. subst r L N S.
  pose proof (handle_options_child_count _ _ Ho) as Hc0.
  destruct (file_sizing env po0 content (proj1 Hc0) Hin Hfs HL)
    as (Hp & Hst & Hs0 & Hfit & Heff).
  destruct (main_ready_children argv env evs po0 _ _ _ Ho Hp)
    as (Hopt & Hch & _).
  pose proof (prepare_child_count _ _ _ _ _ Hc0 Hp) as Hc1.
  pose proof (sizing_child_count _ Hc1) as Hc2.
  unfold blocks. rewrite Hopt, Hch.
  set (po2 := sizing (set_st_size po0 (Z.of_nat (length content)))) in *.
  intros HN Hcase.
  assert (0 <= st_size po2 < 2 ^ 31) as Hsmall by lia.
  assert (child_count po2 = 1 \/ 1 <= block_size po2) as Hpos.
  { destruct Hcase as [H1|HNL]; [left; exact H1|].
    destruct (Z.eq_dec (child_count po2) 1) as [H1|H1]; [left; exact H1|].
    right. destruct (block_size po0 >? 0) eqn:Hb.
    - destruct Heff as (-> & _). lia.
    - destruct Heff as (Hn & ->). rewrite <- Hn.
      assert (0 < Z.of_nat (length content) / child_count po2)
        by (apply Z.div_str_pos; lia).
      lia. }
  split.
  { destruct (block_size po0 >? 0).
    - destruct Heff as (H1 & H2). rewrite H1. auto.
    - destruct Heff as (H1 & H2). rewrite H1. auto. }
  split; [rewrite length_map, length_seq; reflexivity|].
  split.
  { intros i Hi. rewrite nth_child_listed by lia.
    rewrite (inner_child env po2 Hsmall HN Hpos Hs0) by lia.
    unfold Int.u16. rewrite Z.mod_small by lia. reflexivity. }
  split.
  { intros i Hi. split.
    - rewrite nth_child_listed by lia.
      rewrite (last_child env po2 Hsmall HN Hpos Hs0) by lia.
      unfold Int.u16. rewrite Z.mod_small by lia. reflexivity.
    - rewrite nth_error_map, nth_child_listed by lia. cbn [option_map].
      rewrite (last_child_reads env po2 Hsmall HN Hpos Hs0) by lia.
      reflexivity. }
  split.
  - apply (children_read_all env po2 Hsmall HN Hpos Hs0); [lia|].
    rewrite length_offsets. lia.
  - apply (children_read_all env po2 Hsmall HN Hpos Hs0); lia.
Qed.

Lemma blocks_partition_the_file_witness :
  concat (blocks (offsets (length (bytes "000111222333")))
                 (main two_children_argv (one_file (bytes "000111222333")) []))
  = offsets (length (bytes "000111222333")).
Proof.
  refine (let H := blocks_partition_the_file
                     two_children_argv (one_file (bytes "000111222333")) []
                     _ (bytes "000111222333") eq_refl _ eq_refl _ _ _ in _).
  - destruct H as (_ & _ & _ & _ & H5 & _). exact H5.
  Unshelve.
  + vm_compute. discriminate.
  + vm_compute. reflexivity.
  + vm_compute. discriminate.
  + right. vm_compute. discriminate.
Defined.

(** With more children than bytes the blocks are no partition: for a file
    of one byte and two children the block size is 0, the end of the first
    block wraps to the value that stands for "to the end of the file", and
    both children read the byte at offset 0. *)
Remark blocks_overlap_in_a_short_file :
  block_size (options (main two_children_argv (one_file (bytes "7")) [])) = 0 /\
  blocks (offsets 1) (main two_children_argv (one_file (bytes "7")) [])
  = [[0]; [0]] /\
  concat (blocks (offsets 1) (main two_children_argv (one_file (bytes "7")) []))
  <> offsets 1.
Proof.
  split; [vm_compute; reflexivity|].
  split; [vm_compute; reflexivity|].
  vm_compute. discriminate.
Qed.

(** C5 at a file of 2^32 bytes and two children.  The sizes are as the
    claim has them, [N = 2] and [S = floor (L / N) = 2^31], and the first
    child reads the first 2^31 bytes.  The start 2^31 of the second block
    does not fit the [int] parameter of [add_child]: it is stored as
    2^64 - 2^31, [fseek] refuses it, the position lies behind the end of
    the block, and the second child reads nothing.  The second half of the
    file is read by no child. *)
Theorem second_half_of_a_large_file_is_not_read
    (env : environment) (evs : list read_event) (content : list byte) :
  file_system env "in.dat" = Some content ->
  Z.of_nat (length content) = 2 ^ 32 ->
  child_count (options (main two_children_argv env evs)) = 2 /\
  block_size (options (main two_children_argv env evs)) = 2 ^ 31 /\
  children (main two_children_argv env evs)
  = [mk_child_info (pipe_fds env 0) 0 (2 ^ 31 - 1) 0;
     mk_child_info (pipe_fds env 1) (2 ^ 64 - 2 ^ 31) (Int.u64 (-1)) 1] /\
  blocks content (main two_children_argv env evs)
  = [firstn (Z.to_nat (2 ^ 31)) content; []] /\
  concat (blocks content (main two_children_argv env evs)) <> content.
Proof.
  intros Hfs Hlen.
  assert (handle_options two_children_argv
          = inr (mk_options "in.dat" (Some "-"%string) 2 0 false true 0)) as Ho
    by reflexivity.
  set (po0 := mk_options "in.dat" (Some "-"%string) 2 0 false true 0) in Ho.
  assert (prepare env po0
          = Ready (set_st_size po0 (2 ^ 32))
              [("File size: " ++ decimal (2 ^ 32))%string] []) as Hp.
  { unfold prepare. change (String.eqb "-" (input_file po0)) with false.
    cbv iota. change (input_file po0) with "in.dat"%string.
    rewrite Hfs, Hlen. reflexivity. }
  destruct (main_ready_children two_children_argv env evs po0 _ _ _ Ho Hp)
    as (Hopt & Hch & _).
  set (po2 := mk_options "in.dat" (Some "-"%string) 2 (2 ^ 31) false true
                         (2 ^ 32)).
  change (sizing (set_st_size po0 (2 ^ 32))) with po2 in Hopt, Hch.
  change (Z.to_nat (child_count po2)) with 2%nat in Hch.
  cbn [seq map] in Hch.
  assert (nth_child env po2 0
          = mk_child_info (pipe_fds env 0) 0 (2 ^ 31 - 1) 0) as H0
    by reflexivity.
  assert (nth_child env po2 1
          = mk_child_info (pipe_fds env 1) (2 ^ 64 - 2 ^ 31) (Int.u64 (-1)) 1)
    as H1 by reflexivity.
  rewrite H0, H1 in Hch.
  assert (child_reads content po2
            (mk_child_info (pipe_fds env 0) 0 (2 ^ 31 - 1) 0)
          = firstn (Z.to_nat (2 ^ 31)) content) as R0.
  { unfold child_reads. cbn [seek_to read_to].
    change (fseek content 0) with content.
    change (effective_read_to po2 (2 ^ 31 - 1)) with (2 ^ 31 - 1).
    rewrite file_reads_firstn by lia. f_equal. }
  assert (child_reads content po2
            (mk_child_info (pipe_fds env 1) (2 ^ 64 - 2 ^ 31)
                           (Int.u64 (-1)) 1)
          = []) as R1.
  { unfold child_reads. cbn [seek_to read_to].
    change (fseek content (2 ^ 64 - 2 ^ 31)) with content.
    change (effective_read_to po2 (Int.u64 (-1))) with (2 ^ 32).
    destruct content; reflexivity. }
  assert (blocks content (main two_children_argv env evs)
          = [firstn (Z.to_nat (2 ^ 31)) content; []]) as Hblocks.
  { unfold blocks. rewrite Hopt, Hch. cbn [map]. rewrite R0, R1.
    reflexivity. }
  rewrite Hopt, Hch, Hblocks.
  split; [reflexivity|]. split; [reflexivity|]. split; [reflexivity|].
  split; [reflexivity|].
  cbn [concat]. rewrite !app_nil_r. intros Heq.
  apply (f_equal (fun l => Z.of_nat (length l))) in Heq.
  rewrite length_firstn in Heq. lia.
Qed.

Lemma second_half_of_a_large_file_is_not_read_witness :
  blocks four_gib_file (main two_children_argv (one_file four_gib_file) [])
  = [firstn (Z.to_nat (2 ^ 31)) four_gib_file; []].
Proof.
  refine (let H := second_half_of_a_large_file_is_not_read
                     (one_file four_gib_file) [] four_gib_file eq_refl _ in _).
  - destruct H as (_ & _ & _ & H4 & _). exact H4.
  Unshelve.
  unfold four_gib_file. rewrite repeat_length. apply Z2Nat.id. lia.
Defined.

(** ** Groups of three and the boundaries of the blocks *)

Lemma list_ind3 {A : Type} (P : list A -> Prop) :
  P [] -> (forall a, P [a]) -> (forall a b, P [a; b]) ->
  (forall a b c l, P l -> P (a :: b :: c :: l)) ->
  forall l, P l.
Proof.
  intros H0 H1 H2 H3.
  fix IH 1.
  intros [|a [|b [|c l]]]; [exact H0|apply H1|apply H2|apply H3, IH].
Qed.

Lemma length3_mod (A : Type) (a b c : A) (l : list A) :
  Z.of_nat (length (a :: b :: c :: l)) mod 3 = Z.of_nat (length l) mod 3.
Proof.
  cbn [length].
  replace (Z.of_nat (S (S (S (length l)))))
    with (Z.of_nat (length l) + 1 * 3) by lia.
  apply Z.mod_add. lia.
Qed.

Lemma group_sum_app_aligned (xs ys : list byte) :
  Z.of_nat (length xs) mod 3 = 0 ->
  group_sum (xs ++ ys) = group_sum xs + group_sum ys.
Proof.
  induction xs as [| a | a b | a b c l IH] using list_ind3.
  - reflexivity.
  - cbn. discriminate.
  - cbn. discriminate.
  - rewrite length3_mod. intros H. cbn [app group_sum].
    rewrite (IH H). lia.
Qed.

Lemma group_sum_app_incomplete (xs ys : list byte) :
  Z.of_nat (length xs) mod 3 + Z.of_nat (length ys) < 3 ->
  group_sum (xs ++ ys) = group_sum xs.
Proof.
  induction xs as [| a | a b | a b c l IH] using list_ind3.
  - cbn [app length Z.of_nat]. rewrite Z.mod_0_l by lia. intros H.
    rewrite group_sum_short by lia. reflexivity.
  - change (Z.of_nat (length [a]) mod 3) with 1. intros H.
    rewrite !group_sum_short; [reflexivity|cbn; lia|].
    rewrite length_app. cbn [length]. lia.
  - change (Z.of_nat (length [a; b]) mod 3) with 2. intros H.
    rewrite !group_sum_short; [reflexivity|cbn; lia|].
    rewrite length_app. cbn [length]. lia.
  - rewrite length3_mod. intros H. cbn [app group_sum].
    rewrite (IH H). reflexivity.
Qed.

Lemma digit_count_app (xs ys : list byte) :
  digit_count (xs ++ ys) = digit_count xs + digit_count ys.
Proof. unfold digit_count. rewrite digits_app, length_app. lia. Qed.

Lemma digit_count_nonneg (xs : list byte) : 0 <= digit_count xs.
Proof. unfold digit_count. lia. Qed.

Lemma groups_total_few_digits (pieces : list (list byte)) :
  digit_count (concat pieces) < 3 -> groups_total pieces = 0.
Proof.
  induction pieces as [|p rest IH]; [reflexivity|].
  cbn [concat groups_total fold_right]. rewrite digit_count_app.
  pose proof (digit_count_nonneg p) as Hp.
  pose proof (digit_count_nonneg (concat rest)) as Hrest.
  intros H. fold (groups_total rest). rewrite IH by lia.
  rewrite group_sum_short; [reflexivity|]. unfold digit_count in *. lia.
Qed.

Lemma group_straddles_shift (a x total : Z) :
  a mod 3 = 0 ->
  group_straddles (a + x) (a + total) = group_straddles x total.
Proof.
  intros Ha. unfold group_straddles.
  apply Z.mod_divide in Ha; [|lia]. destruct Ha as [m ->].
  rewrite (Z.add_comm (m * 3) x), Z.mod_add, Z.div_add by lia.
  f_equal. apply eq_true_iff_eq. rewrite !Z.leb_le. lia.
Qed.

(** Without a cut group the groups of the pieces are the groups of the
    whole. *)
Lemma groups_of_pieces (pieces : list (list byte)) :
  no_group_straddles pieces ->
  groups_total pieces = group_sum (digits (concat pieces)).
Proof.
  induction pieces as [|p rest IH]; intros H; [reflexivity|].
  cbn [groups_total fold_right concat]. fold (groups_total rest).
  rewrite digits_app.
  destruct (Nat.eq_dec (length rest) 0) as [Hz|Hnz].
  { destruct rest; [|discriminate].
    cbn [groups_total fold_right concat digits filter].
    rewrite app_nil_r. lia. }
  pose proof (H 1%nat) as H1. cbn [length firstn concat] in H1.
  rewrite app_nil_r, digit_count_app in H1.
  specialize (H1 ltac:(lia)).
  unfold group_straddles in H1. apply andb_false_iff in H1.
  destruct (Z.eq_dec (digit_count p mod 3) 0) as [Hal|Hnal].
  - rewrite group_sum_app_aligned by exact Hal.
    rewrite IH; [reflexivity|].
    intros k Hk. specialize (H (S k)). cbn [length firstn concat] in H.
    rewrite !digit_count_app in H.
    rewrite (group_straddles_shift _ _ _ Hal) in H. apply H. lia.
  - destruct H1 as [H1|H1].
    { apply negb_false_iff, Z.eqb_eq in H1. contradiction. }
    apply Z.leb_gt in H1.
    pose proof (Z.div_mod (digit_count p) 3 ltac:(lia)) as Hdm.
    pose proof (Z.mod_pos_bound (digit_count p) 3 ltac:(lia)) as Hmb.
    rewrite groups_total_few_digits by lia.
    rewrite group_sum_app_incomplete; [lia|].
    unfold digit_count in *. lia.
Qed.

Lemma records_are_group_sums (f : child_info -> child_result)
    (g : child_info -> list byte) (l : list child_info) :
  (forall ci, sum (f ci) = Int.u64 (group_sum (digits (g ci)))) ->
  Int.u64 (sum_of (map f l)) = Int.u64 (groups_total (map g l)).
Proof.
  intros Hf. induction l as [|ci l IH]; [reflexivity|].
  cbn [map sum_of groups_total fold_right].
  fold (sum_of (map f l)). fold (groups_total (map g l)).
  rewrite Hf, u64_add_l.
  rewrite <- u64_add_r, IH, u64_add_r. reflexivity.
Qed.

Lemma file_child_sum (po : program_options) (env : environment)
    (content : list byte) (ci : child_info) :
  input_file po <> "-"%string ->
  file_system env (input_file po) = Some content ->
  sum (child_handler po env ci)
  = Int.u64 (group_sum (digits (child_reads content po ci))).
Proof.
  intros Hin Hfs. unfold child_handler.
  replace (String.eqb (input_file po) "-") with false
    by (symmetry; apply String.eqb_neq; exact Hin).
  rewrite handle_file_groups. unfold open_and_seek_to. rewrite Hfs.
  reflexivity.
Qed.

(** C7, with the sums of the specification's example put right.  For a
    file and every run in which the record of every child arrives whole, in
    whatever order: if the blocks the children read are a partition of the
    file and no boundary between two blocks cuts a group of three digits,
    the run ends and the final sum is the sum of a single scan of the whole
    file.  For "000111222333" and two children the blocks are "000111" and
    "222333", the sums of the children are 111 and 555, and the final sum
    is 666, which is the sum of the single scan. *)
Theorem final_sum_is_single_pass_sum :
  (forall (argv : list (OPTION_KEYS * string)) (env : environment)
          (evs : list read_event) (po0 : program_options)
          (content : list byte),
      handle_options argv = inr po0 ->
      input_file po0 <> "-"%string ->
      file_system env (input_file po0) = Some content ->
      Permutation evs (deliveries env (main argv env evs)) ->
      concat (blocks content (main argv env evs)) = content ->
      no_group_straddles (blocks content (main argv env evs)) ->
      result (main argv env evs) = Exit 0 /\
      reported_sum (main argv env evs) = sum (handle_stdin content 0)) /\
  blocks (bytes "000111222333")
         (whole_run two_children_argv (one_file (bytes "000111222333")))
  = [bytes "000111"; bytes "222333"] /\
  map ev_result
      (deliveries (one_file (bytes "000111222333"))
         (whole_run two_children_argv (one_file (bytes "000111222333"))))
  = [mk_child_result 0 111; mk_child_result 1 555] /\
  reported_sum (whole_run two_children_argv (one_file (bytes "000111222333")))
  = 666 /\
  sum (handle_stdin (bytes "000111222333") 0) = 666.
Proof.
  split; [|repeat split; vm_compute; reflexivity].
  intros argv env evs po0 content Ho Hin Hfs HP Hpart Hno.
  assert (prepare env po0
          = Ready (set_st_size po0 (Z.of_nat (length content)))
              [("File size: "
                ++ decimal (st_size (set_st_size
                                       po0 (Z.of_nat (length content)))))%string]
              []) as Hp.
  { unfold prepare.
    replace (String.eqb "-" (input_file po0)) with false.
    - rewrite Hfs. reflexivity.
    - symmetry. apply String.eqb_neq. intros H. apply Hin. symmetry. exact H. }
  destruct (main_ready_children argv env evs po0 _ _ _ Ho Hp)
    as (Hopt & Hch & _).
  pose proof (handle_options_child_count _ _ Ho) as H0.
  pose proof (prepare_child_count _ _ _ _ _ H0 Hp) as H1.
  pose proof (sizing_child_count _ H1) as H2.
  unfold deliveries in HP.
  destruct (deliveries_read env _ _ evs HP) as (Hf & Hn & Hrec).
  destruct (main_all_read argv env evs po0 _ _ _ Ho Hp) as (Hr & _ & Ht).
  { rewrite Hn, Hch, length_map, length_seq. lia. }
  split; [exact Hr|]. rewrite Ht.
  rewrite (sum_of_permutation _ _ Hrec).
  rewrite (records_are_group_sums
             _ (child_reads content (options (main argv env evs)))).
  - fold (blocks content (main argv env evs)).
    rewrite (groups_of_pieces _ Hno), Hpart.
    symmetry. apply handle_stdin_groups.
  - intros ci. apply file_child_sum.
    + rewrite Hopt, sizing_input_file. exact Hin.
    + rewrite Hopt, sizing_input_file. exact Hfs.
Qed.

Lemma final_sum_is_single_pass_sum_witness :
  reported_sum
    (main two_children_argv (one_file (bytes "000111222333"))
          [mk_event 6 16 (mk_child_result 1 555);
           mk_event 4 16 (mk_child_result 0 111)])
  = sum (handle_stdin (bytes "000111222333") 0).
Proof.
  refine (proj2 (proj1 final_sum_is_single_pass_sum
                   two_children_argv (one_file (bytes "000111222333"))
                   [mk_event 6 16 (mk_child_result 1 555);
                    mk_event 4 16 (mk_child_result 0 111)]
                   _ (bytes "000111222333") eq_refl _ eq_refl _ _ _)).
  - vm_compute. discriminate.
  - vm_compute. apply perm_swap.
  - vm_compute. reflexivity.
  - intros k Hk.
    change (length (blocks _ _)) with 2%nat in Hk.
    assert (k = 1%nat) as -> by lia.
    vm_compute. reflexivity.
Defined.

(** C7, as the specification states it, fails on the numbers of its
    example: the second child sums "222333" to 555, not to 333, and the
    final sum is 666, not 444. *)
Lemma example_sums_are_555_and_666 :
  sum (handle_file (bytes "222333") 1 6 12) = 555 /\
  sum (handle_file (bytes "222333") 1 6 12) <> 333 /\
  reported_sum (whole_run two_children_argv (one_file (bytes "000111222333")))
  <> 444.
Proof.
  split; [vm_compute; reflexivity|].
  split; vm_compute; discriminate.
Qed.

(** * Further properties of the code *)

(** ** The option parser *)

Lemma parse_opt_flags (key : OPTION_KEYS) (arg : string)
    (po po1 : program_options) :
  parse_opt key arg po = (0, po1) ->
  (_used_block po1 = true <-> _used_block po = true \/ key = BLOCK_SIZE) /\
  (_used_child po1 = true <-> _used_child po = true \/ key = CHILD_COUNT) /\
  (_used_block po && _used_child po = false ->
   _used_block po1 && _used_child po1 = false).
Proof.
  unfold parse_opt. destruct key.
  - intros [= <-]. cbn. intuition discriminate.
  - intros [= <-]. cbn. intuition discriminate.
  - destruct (_used_block po) eqn:Hb; [discriminate|].
    destruct (child_count _ <=? 0); [discriminate|].
    intros [= <-]. cbn. rewrite Hb. intuition discriminate.
  - destruct (_used_child po) eqn:Hc; [discriminate|].
    intros [= <-]. cbn. rewrite Hc. intuition discriminate.
  - discriminate.
Qed.

Lemma argp_parse_flags (argv : list (OPTION_KEYS * string)) :
  forall po po',
    argp_parse argv po = (0, po') ->
    (_used_block po' = true
     <-> _used_block po = true \/ In BLOCK_SIZE (map fst argv)) /\
    (_used_child po' = true
     <-> _used_child po = true \/ In CHILD_COUNT (map fst argv)) /\
    (_used_block po && _used_child po = false ->
     _used_block po' && _used_child po' = false).
Proof.
  induction argv as [|[key arg] rest IH]; intros po po'.
  - intros [= <-]. cbn. tauto.
  - cbn [argp_parse map fst In].
    destruct (parse_opt key arg po) as [e po1] eqn:Hp.
    destruct (e =? 0) eqn:He; [|intros [= -> _]; discriminate].
    apply Z.eqb_eq in He. subst e. intros Hrest.
    destruct (parse_opt_flags _ _ _ _ Hp) as (B1 & C1 & N1).
    destruct (IH _ _ Hrest) as (B2 & C2 & N2).
    split; [|split]; [tauto|tauto|auto].
Qed.

(** X1. An accepted command line never holds both [--block-size] and
    [--child-count], in either order; [_used_block] and [_used_child] say
    which of the two it holds. *)
Theorem block_size_and_child_count_exclude_each_other
    (argv : list (OPTION_KEYS * string)) (po : program_options) :
  handle_options argv = inr po ->
  (_used_block po = true <-> In BLOCK_SIZE (map fst argv)) /\
  (_used_child po = true <-> In CHILD_COUNT (map fst argv)) /\
  ~ (In BLOCK_SIZE (map fst argv) /\ In CHILD_COUNT (map fst argv)).
Proof.
  unfold handle_options.
  destruct (argp_parse argv default_options) as [e po1] eqn:Hp.
  destruct (e =? ARGP_ERR_UNKNOWN); [discriminate|].
  destruct (e =? 0) eqn:He; cbn [negb]; [|discriminate].
  apply Z.eqb_eq in He. subst e.
  destruct (argp_parse_flags _ _ _ Hp) as (B & C & N).
  cbn [default_options _used_block _used_child andb] in B, C, N.
  specialize (N eq_refl).
  intros Hpo.
  assert (_used_block po = _used_block po1) as Eb'
    by (destruct (output_file po1); injection Hpo as <-; reflexivity).
  assert (_used_child po = _used_child po1) as Ec'
    by (destruct (output_file po1); injection Hpo as <-; reflexivity).
  rewrite Eb', Ec'. split; [|split].
  - rewrite B. intuition discriminate.
  - rewrite C. intuition discriminate.
  - intros (Hb & Hc).
    assert (_used_block po1 = true) as H1 by (apply B; auto).
    assert (_used_child po1 = true) as H2 by (apply C; auto).
    rewrite H1, H2 in N. discriminate.
Qed.

Lemma block_size_and_child_count_exclude_each_other_witness :
  ~ (In BLOCK_SIZE (map fst two_children_argv) /\
     In CHILD_COUNT (map fst two_children_argv)).
Proof.
  exact (proj2 (proj2 (block_size_and_child_count_exclude_each_other
                         two_children_argv _ eq_refl))).
Defined.

(** X2. [--child-count] keeps its argument modulo 65536, the width of
    [child_count]: it is refused exactly when [atoi] of it is a multiple of
    65536 (0 and 65536 are), the error is [EINVAL], and every other
    argument, a negative one too, is accepted with its residue. *)
Theorem child_count_is_kept_modulo_65536
    (arg : string) (po : program_options) :
  _used_block po = false ->
  child_count (snd (parse_opt CHILD_COUNT arg po))
  = atoi (list_byte_of_string arg) mod 2 ^ 16 /\
  (fst (parse_opt CHILD_COUNT arg po) = 0
   <-> atoi (list_byte_of_string arg) mod 2 ^ 16 <> 0) /\
  (fst (parse_opt CHILD_COUNT arg po) <> 0 ->
   fst (parse_opt CHILD_COUNT arg po) = EINVAL).
Proof.
  intros Hb. unfold parse_opt. rewrite Hb.
  cbn [child_count set_used_child set_child_count]. unfold Int.u16.
  pose proof (Z.mod_pos_bound (atoi (list_byte_of_string arg)) (2 ^ 16)
                ltac:(lia)) as Hm.
  destruct (_ mod 2 ^ 16 <=? 0) eqn:Hz; cbn [fst snd child_count].
  - apply Z.leb_le in Hz. split; [reflexivity|]. split; [|reflexivity].
    unfold EINVAL. split; [discriminate|lia].
  - apply Z.leb_gt in Hz. split; [reflexivity|]. split.
    + split; [lia|reflexivity].
    + intros H. exfalso. apply H. reflexivity.
Qed.

Lemma child_count_is_kept_modulo_65536_witness :
  child_count (snd (parse_opt CHILD_COUNT "-1" default_options)) = 65535.
Proof.
  exact (proj1 (child_count_is_kept_modulo_65536 "-1" default_options eq_refl)).
Defined.

Lemma atoi_without_number (s : list byte) :
  match s with
  | [] => True
  | c :: _ =>
      isspace c = false /\ isdigit c = false /\ code c <> 45 /\ code c <> 43
  end ->
  atoi s = 0.
Proof.
  destruct s as [|c s']; [reflexivity|]. intros (Hs & Hd & Hm & Hp).
  unfold atoi, strtol. cbn [skip_spaces]. rewrite Hs.
  replace (code c =? 45) with false by lia.
  replace (code c =? 43) with false by lia.
  cbn [digits_value]. rewrite Hd. reflexivity.
Qed.

(** X3. A [--block-size] whose argument does not begin with a space, a
    sign or a digit is accepted with a block size of 0, the value [main]
    takes as "no block size"; the option still counts as used, so a
    [--child-count] behind it is refused. *)
Theorem unparsable_block_size_counts_as_unset
    (arg : string) (po : program_options) :
  _used_child po = false ->
  match list_byte_of_string arg with
  | [] => True
  | c :: _ =>
      isspace c = false /\ isdigit c = false /\ code c <> 45 /\ code c <> 43
  end ->
  parse_opt BLOCK_SIZE arg po = (0, set_used_block (set_block_size po 0) true) /\
  forall arg2,
    fst (parse_opt CHILD_COUNT arg2 (snd (parse_opt BLOCK_SIZE arg po)))
    = EINVAL.
Proof.
  intros Hc Harg.
  assert (parse_opt BLOCK_SIZE arg po
          = (0, set_used_block (set_block_size po 0) true)) as H.
  { unfold parse_opt. rewrite Hc, (atoi_without_number _ Harg). reflexivity. }
  split; [exact H|]. intros arg2. rewrite H. reflexivity.
Qed.

Lemma unparsable_block_size_counts_as_unset_witness :
  parse_opt BLOCK_SIZE "abc" default_options
  = (0, set_used_block (set_block_size default_options 0) true).
Proof.
  refine (proj1 (unparsable_block_size_counts_as_unset
                   "abc" default_options eq_refl _)).
  vm_compute. repeat split; discriminate.
Defined.

(** ** The scan *)

Lemma group_sum_bounds (ds : list byte) :
  Forall (fun c => isdigit c = true) ds ->
  0 <= group_sum ds <= 333 * Z.of_nat (length ds).
Proof.
  induction ds as [| a | a b | a b c l IH] using list_ind3; intros H.
  - cbn. lia.
  - cbn. lia.
  - cbn. lia.
  - inversion H as [|? ? Ha H1]; subst. inversion H1 as [|? ? Hb H2]; subst.
    inversion H2 as [|? ? Hc H3]; subst. specialize (IH H3).
    pose proof (digit_value_range a Ha). pose proof (digit_value_range b Hb).
    pose proof (digit_value_range c Hc).
    cbn [group_sum length]. lia.
Qed.

Lemma digits_are_digits (stream : list byte) :
  Forall (fun c => isdigit c = true) (digits stream).
Proof.
  apply Forall_forall. intros c Hc. unfold digits in Hc.
  apply filter_In in Hc. apply Hc.
Qed.

(** X4. For a stream of fewer than 2^54 bytes the sum of a child does not
    wrap around: it is the sum of the complete groups of three of the
    digits, and it is at most 333 times the number of bytes. *)
Theorem child_sum_does_not_wrap (stream : list byte) (num : Z) :
  Z.of_nat (length stream) < 2 ^ 54 ->
  sum (handle_stdin stream num) = group_sum (digits stream) /\
  0 <= sum (handle_stdin stream num) <= 333 * Z.of_nat (length stream).
Proof.
  intros Hlen. rewrite handle_stdin_groups.
  pose proof (group_sum_bounds _ (digits_are_digits stream)) as Hb.
  pose proof (filter_length_le isdigit stream) as Hf. fold (digits stream) in Hf.
  rewrite u64_small by lia. lia.
Qed.

Lemma child_sum_does_not_wrap_witness :
  sum (handle_stdin (bytes "999x999") 0) = group_sum (digits (bytes "999x999")).
Proof.
  refine (proj1 (child_sum_does_not_wrap (bytes "999x999") 0 _)).
  vm_compute. reflexivity.
Defined.

(** X5. [handle_file] on a block that starts at [seek_to] and ends at
    [read_to] is [handle_stdin] on the first [read_to - seek_to + 1] bytes
    of the positioned stream, or on all of them when the stream ends
    before; a block that ends before it starts gives the sum 0. *)
Theorem handle_file_scans_its_block
    (stream : list byte) (num seek_to read_to : Z) :
  0 <= seek_to ->
  read_to < 2 ^ 64 - 1 ->
  handle_file stream num seek_to read_to
  = handle_stdin (firstn (Z.to_nat (read_to - seek_to + 1)) stream) num /\
  (read_to < seek_to -> sum (handle_file stream num seek_to read_to) = 0).
Proof.
  intros Hs Hr.
  assert (handle_file stream num seek_to read_to
          = handle_stdin (firstn (Z.to_nat (read_to - seek_to + 1)) stream) num)
    as H.
  { unfold handle_file, handle_stdin.
    rewrite file_loop_reads, file_reads_firstn by assumption. reflexivity. }
  split; [exact H|]. intros Hlt. rewrite H.
  replace (Z.to_nat (read_to - seek_to + 1)) with 0%nat by lia. reflexivity.
Qed.

Lemma handle_file_scans_its_block_witness :
  handle_file (bytes "111222333") 0 0 5 = handle_stdin (bytes "111222") 0.
Proof.
  refine (proj1 (handle_file_scans_its_block (bytes "111222333") 0 0 5 _ _)).
  - vm_compute. discriminate.
  - vm_compute. reflexivity.
Defined.

(** ** How a run ends *)



Lemma collect_end_kind (evs : list read_event) :
  forall st,
    0 <= waiting_for st < 2 ^ 16 ->
    match collect evs st with
    | Finished s =>
        waiting_for st <= records_read evs /\
        Z.of_nat (length (output s))
        = Z.of_nat (length (output st)) + waiting_for st
    | Blocked _ => records_read evs < waiting_for st
    end.
Proof.
  induction evs as [|ev evs IH]; intros st Hw; cbn [collect].
  - destruct (waiting_for st >? 0) eqn:Hgt.
    + unfold records_read. cbn. lia.
    + unfold records_read. cbn. lia.
  - rewrite records_read_cons. pose proof (records_read_nonneg evs) as Hn.
    destruct (waiting_for st >? 0) eqn:Hgt.
    + destruct (got_bytes ev) eqn:Hev.
      * assert (Int.u16 (waiting_for st - 1) = waiting_for st - 1) as Hu
          by (unfold Int.u16; apply Z.mod_small; lia).
        specialize (IH (handle_event ev st)).
        rewrite (handle_event_got _ _ Hev) in *.
        cbn [waiting_for output] in IH. rewrite Hu in *.
        specialize (IH ltac:(lia)).
        destruct (collect evs _); [|lia].
        rewrite length_app in IH. cbn [length] in IH. lia.
      * specialize (IH (handle_event ev st)).
        rewrite (handle_event_none _ _ Hev) in *.
        cbn [waiting_for output] in IH. specialize (IH Hw).
        destruct (collect evs _); lia.
    + destruct (got_bytes ev); lia.
Qed.

Lemma collect_ignores_the_rest (evs more : list read_event) :
  forall st s,
    collect evs st = Finished s -> collect (evs ++ more) st = Finished s.
Proof.
  induction evs as [|ev evs IH]; intros st s; cbn [collect app].
  - destruct (waiting_for st >? 0) eqn:Hgt; [discriminate|].
    intros [= <-]. destruct more; cbn [collect]; rewrite Hgt; reflexivity.
  - destruct (waiting_for st >? 0); [apply IH|auto].
Qed.

(** X7. A run that gets to the collecting loop returns, with status 0,
    exactly when at least as many reads return bytes as there are children,
    and hangs in [epoll_wait] otherwise; when it returns it has written
    one line for every child and the line of the final sum behind what was
    written before the loop. *)
Theorem run_returns_when_enough_reads_return_bytes
    (argv : list (OPTION_KEYS * string)) (env : environment)
    (evs : list read_event) (po0 po1 : program_options)
    (out err : list string) :
  handle_options argv = inr po0 ->
  prepare env po0 = Ready po1 out err ->
  (result (main argv env evs) = Exit 0
   <-> child_count (sizing po1) <= records_read evs) /\
  (result (main argv env evs) = Hang
   <-> records_read evs < child_count (sizing po1)) /\
  (result (main argv env evs) = Exit 0 ->
   Z.of_nat (length (stdout (main argv env evs)))
   = Z.of_nat (length out) + child_count (sizing po1) + 1).
Proof.
  intros Ho Hp. rewrite (main_ready _ _ _ _ _ _ _ Ho Hp).
  pose proof (handle_options_child_count _ _ Ho) as H0.
  pose proof (prepare_child_count _ _ _ _ _ H0 Hp) as H1.
  pose proof (sizing_child_count _ H1) as H2.
  set (st0 := mk_coord 0 _ _ out).
  pose proof (collect_end_kind evs st0 H2) as Hk.
  destruct (collect evs st0) as [s|s]; subst st0;
    cbn [result stdout waiting_for output] in *.
  - destruct Hk as (Hk1 & Hk2). repeat split; auto; try discriminate.
    + intros Hlt. lia.
    + intros _. rewrite length_app. cbn [length]. lia.
  - repeat split; auto; try discriminate. intros Hle. lia.
Qed.

Lemma run_returns_when_enough_reads_return_bytes_witness :
  result (main two_children_argv (one_file (bytes "000111222333"))
               [mk_event 6 16 (mk_child_result 1 555);
                mk_event 4 16 (mk_child_result 0 111)])
  = Exit 0.
Proof.
  refine (proj2 (proj1 (run_returns_when_enough_reads_return_bytes
                          two_children_argv (one_file (bytes "000111222333"))
                          [mk_event 6 16 (mk_child_result 1 555);
                           mk_event 4 16 (mk_child_result 0 111)]
                          _ _ _ _ eq_refl eq_refl)) _).
  vm_compute. discriminate.
Defined.

(** X8. The parent reads no further once the loop is left: events behind
    the ones of a run that has ended change nothing of the run. *)
Theorem events_after_the_end_are_not_read
    (argv : list (OPTION_KEYS * string)) (env : environment)
    (evs more : list read_event) :
  result (main argv env evs) <> Hang ->
  main argv env (evs ++ more) = main argv env evs.
Proof.
  unfold main.
  destruct (handle_options argv) as [status|po]; [reflexivity|].
  destruct (prepare env po) as [status err|po1 out err]; [reflexivity|].
  destruct (spawn_children env (sizing po1)) as [epoll list_head].
  destruct (collect evs _) as [s|s] eqn:Hc; cbn [result]; [|congruence].
  intros _. rewrite (collect_ignores_the_rest _ more _ _ Hc). reflexivity.
Qed.

Lemma events_after_the_end_are_not_read_witness :
  main one_child_argv (one_file (bytes "123"))
       ([mk_event 4 16 (mk_child_result 0 123)] ++ [three_bytes])
  = main one_child_argv (one_file (bytes "123"))
         [mk_event 4 16 (mk_child_result 0 123)].
Proof.
  refine (events_after_the_end_are_not_read
            one_child_argv (one_file (bytes "123"))
            [mk_event 4 16 (mk_child_result 0 123)] [three_bytes] _).
  vm_compute. discriminate.
Defined.

(** ** Runs in which every record arrives *)

Lemma whole_run_records (argv : list (OPTION_KEYS * string))
    (env : environment) (po0 po1 : program_options) (out err : list string) :
  handle_options argv = inr po0 ->
  prepare env po0 = Ready po1 out err ->
  let po2 := sizing po1 in
  let l := map (nth_child env po2) (seq 0 (Z.to_nat (child_count po2))) in
  options (whole_run argv env) = po2 /\
  children (whole_run argv env) = l /\
  result (whole_run argv env) = Exit 0 /\
  stdout (whole_run argv env)
  = out ++ map child_line (map (child_handler po2 env) l)
        ++ [("Final Sum: " ++ decimal (reported_sum (whole_run argv env)))%string] /\
  reported_sum (whole_run argv env)
  = Int.u64 (sum_of (map (child_handler po2 env) l)).
Proof.
  intros Ho Hp po2 l. unfold whole_run.
  destruct (main_ready_children argv env [] po0 po1 out err Ho Hp)
    as (Hopt0 & Hch0 & _).
  set (evs := deliveries env (main argv env [])).
  destruct (main_ready_children argv env evs po0 po1 out err Ho Hp)
    as (Hopt & Hch & _).
  pose proof (handle_options_child_count _ _ Ho) as H0.
  pose proof (prepare_child_count _ _ _ _ _ H0 Hp) as H1.
  pose proof (sizing_child_count _ H1) as H2.
  assert (evs = map (delivered po2 env) l) as Hevs
    by (subst evs; unfold deliveries; rewrite Hopt0, Hch0; reflexivity).
  destruct (deliveries_read env po2 l evs) as (Hf & Hn & _).
  { rewrite Hevs. apply Permutation_refl. }
  assert (records_of evs = map (child_handler po2 env) l) as Hrec.
  { unfold records_of. rewrite Hf, Hevs, map_map. reflexivity. }
  destruct (main_all_read argv env evs po0 po1 out err Ho Hp)
    as (Hr & Hout & Ht).
  { rewrite Hn. subst l po2. rewrite length_map, length_seq. lia. }
  rewrite Hrec in Hout, Ht. auto.
Qed.

Lemma sum_of_zeros (rs : list child_result) :
  (forall r, In r rs -> sum r = 0) -> sum_of rs = 0.
Proof.
  induction rs as [|r rs IH]; intros H; [reflexivity|].
  cbn [sum_of fold_right]. fold (sum_of rs).
  rewrite (H r (or_introl eq_refl)), IH; [reflexivity|].
  intros r' Hr'. apply H. right. exact Hr'.
Qed.

Lemma delivered_run (argv : list (OPTION_KEYS * string))
    (env : environment) (evs : list read_event)
    (po0 po1 : program_options) (out err : list string) :
  handle_options argv = inr po0 ->
  prepare env po0 = Ready po1 out err ->
  Permutation evs (deliveries env (main argv env evs)) ->
  let po2 := sizing po1 in
  let n := Z.to_nat (child_count po2) in
  let l := map (nth_child env po2) (seq 0 n) in
  options (main argv env evs) = po2 /\
  children (main argv env evs) = l /\
  result (main argv env evs) = Exit 0 /\
  stdout (main argv env evs)
  = out ++ map child_line (map ev_result evs)
        ++ [("Final Sum: " ++ decimal (reported_sum (main argv env evs)))%string] /\
  Permutation (map ev_result evs) (map (child_handler po2 env) l) /\
  reported_sum (main argv env evs)
  = Int.u64 (sum_of (map (child_handler po2 env) l)) /\
  Permutation (map ev_fd evs) (map (fun i => fst (pipe_fds env i)) (seq 0 n)) /\
  Forall (fun ev => got_bytes ev = true) evs /\
  Z.of_nat (length evs) = child_count po2.
Proof.
  intros Ho Hp HP po2 n l.
  destruct (main_ready_children argv env evs po0 po1 out err Ho Hp)
    as (Hopt & Hch & _).
  pose proof (handle_options_child_count _ _ Ho) as H0.
  pose proof (prepare_child_count _ _ _ _ _ H0 Hp) as H1.
  pose proof (sizing_child_count _ H1) as H2.
  unfold deliveries in HP. rewrite Hopt, Hch in HP.
  fold po2 in HP. fold n in HP. fold l in HP.
  destruct (deliveries_read env po2 l evs HP) as (Hf & Hn & Hrec).
  assert (records_of evs = map ev_result evs) as Hro
    by (unfold records_of; rewrite Hf; reflexivity).
  assert (Z.of_nat (length l) = child_count po2) as Hlen
    by (subst l n po2; rewrite length_map, length_seq; lia).
  destruct (main_all_read argv env evs po0 po1 out err Ho Hp)
    as (Hr & Hout & Ht).
  { rewrite Hn. exact Hlen. }
  rewrite Hro in Hout, Ht, Hrec.
  split; [exact Hopt|]. split; [exact Hch|]. split; [exact Hr|].
  split; [exact Hout|]. split; [exact Hrec|]. split.
  { rewrite Ht. f_equal. apply sum_of_permutation. exact Hrec. }
  split.
  { replace (map (fun i => fst (pipe_fds env i)) (seq 0 n))
      with (map ev_fd (map (delivered po2 env) l))
      by (subst l; rewrite !map_map; reflexivity).
    apply Permutation_map. exact HP. }
  split.
  { rewrite <- Hf. apply Forall_forall. intros ev Hev.
    apply filter_In in Hev. apply Hev. }
  rewrite (Permutation_length HP), length_map. exact Hlen.
Qed.

(** X9. An empty input file, the record of every child arriving, in
    whatever order: the run returns 0 and writes "File size: 0", then one
    line "Child <i> Sum: 0" for each record in the order of arrival, then
    "Final Sum: 0"; the records are those of the children 0, 1, ..., one
    each, all with the sum 0.  The children are as many as were asked for,
    and none when a block size was given. *)
Theorem empty_file_sums_to_zero
    (argv : list (OPTION_KEYS * string)) (env : environment)
    (evs : list read_event) (po0 : program_options) :
  handle_options argv = inr po0 ->
  input_file po0 <> "-"%string ->
  file_system env (input_file po0) = Some [] ->
  Permutation evs (deliveries env (main argv env evs)) ->
  result (main argv env evs) = Exit 0 /\
  stdout (main argv env evs)
  = ["File size: 0"%string]
      ++ map child_line (map ev_result evs)
      ++ ["Final Sum: 0"%string] /\
  Permutation
    (map ev_result evs)
    (map (fun i => mk_child_result (Z.of_nat i) 0)
         (seq 0 (Z.to_nat (child_count (options (main argv env evs)))))) /\
  child_count (options (main argv env evs))
  = (if block_size po0 >? 0 then 0 else child_count po0).
Proof.
  intros Ho Hin Hfs HP.
  assert (String.eqb "-" (input_file po0) = false) as Hneq.
  { apply String.eqb_neq. intros H. apply Hin. symmetry. exact H. }
  assert (prepare env po0
          = Ready (set_st_size po0 0) ["File size: 0"%string] []) as Hp.
  { unfold prepare. rewrite Hneq, Hfs. reflexivity. }
  destruct (delivered_run argv env evs po0 _ _ _ Ho Hp HP)
    as (Hopt & _ & Hr & Hout & Hrec & Ht & _).
  set (po2 := sizing (set_st_size po0 0)) in *.
  pose proof (handle_options_child_count _ _ Ho) as H0.
  pose proof (prepare_child_count _ _ _ _ _ H0 Hp) as H1.
  pose proof (sizing_child_count _ H1) as H2. fold po2 in H2.
  assert (input_file po2 = input_file po0) as Hi
    by (subst po2; rewrite sizing_input_file; reflexivity).
  assert (forall ci, child_handler po2 env ci = mk_child_result (info_num ci) 0)
    as Hzero.
  { intros ci. unfold child_handler. rewrite Hi.
    replace (String.eqb (input_file po0) "-") with false
      by (symmetry; apply String.eqb_neq; exact Hin).
    unfold open_and_seek_to. rewrite Hfs. unfold fseek.
    rewrite skipn_nil. destruct (Int.long (seek_to ci) <? 0); reflexivity. }
  assert (map (child_handler po2 env)
              (map (nth_child env po2) (seq 0 (Z.to_nat (child_count po2))))
          = map (fun i => mk_child_result (Z.of_nat i) 0)
                (seq 0 (Z.to_nat (child_count po2)))) as Hrecs.
  { rewrite map_map. apply map_ext_in. intros i Hi'. apply in_seq in Hi'.
    rewrite Hzero. unfold nth_child. cbn [info_num]. unfold Int.u16.
    rewrite Z.mod_small by lia. reflexivity. }
  rewrite Hrecs in Hrec, Ht.
  assert (reported_sum (main argv env evs) = 0) as Hsum.
  { rewrite Ht, sum_of_zeros; [reflexivity|].
    intros r Hr'. apply in_map_iff in Hr'. destruct Hr' as (i & <- & _).
    reflexivity. }
  rewrite Hsum in Hout. rewrite Hopt.
  split; [exact Hr|]. split; [exact Hout|]. split; [exact Hrec|].
  subst po2. unfold sizing. cbn [block_size set_st_size st_size child_count].
  destruct (block_size po0 >? 0); cbn [child_count set_child_count
                                        set_block_size set_st_size].
  - change (Int.u64 0) with 0. rewrite Zdiv_0_l. reflexivity.
  - reflexivity.
Qed.

Lemma empty_file_sums_to_zero_witness :
  stdout (main two_children_argv (one_file [])
               [mk_event 6 16 (mk_child_result 1 0);
                mk_event 4 16 (mk_child_result 0 0)])
  = ["File size: 0"%string; "Child 1 Sum: 0"%string; "Child 0 Sum: 0"%string;
     "Final Sum: 0"%string].
Proof.
  refine (let H := empty_file_sums_to_zero
                     two_children_argv (one_file [])
                     [mk_event 6 16 (mk_child_result 1 0);
                      mk_event 4 16 (mk_child_result 0 0)]
                     _ eq_refl _ eq_refl _ in _).
  - destruct H as (_ & H2 & _). exact H2.
  Unshelve.
  + vm_compute. discriminate.
  + vm_compute. apply perm_swap.
Defined.

(** X10. With one child and a file shorter than 2^63 bytes, the child
    reads the whole file, and the sum the run reports is the sum
    [handle_stdin] computes for the same bytes: a file and the same bytes
    on standard input give the same result. *)
Theorem one_child_scans_the_whole_file
    (argv : list (OPTION_KEYS * string)) (env : environment)
    (po0 : program_options) (content : list byte) :
  handle_options argv = inr po0 ->
  input_file po0 <> "-"%string ->
  file_system env (input_file po0) = Some content ->
  Z.of_nat (length content) < 2 ^ 63 ->
  child_count (options (whole_run argv env)) = 1 ->
  blocks content (whole_run argv env) = [content] /\
  result (whole_run argv env) = Exit 0 /\
  reported_sum (whole_run argv env) = sum (handle_stdin content 0).
Proof.
  intros Ho Hin Hfs HL.
  assert (String.eqb "-" (input_file po0) = false) as Hneq.
  { apply String.eqb_neq. intros H. apply Hin. symmetry. exact H. }
  assert (prepare env po0
          = Ready (set_st_size po0 (Z.of_nat (length content)))
              [("File size: "
                ++ decimal (st_size (set_st_size
                                       po0 (Z.of_nat (length content)))))%string]
              []) as Hp.
  { unfold prepare. rewrite Hneq, Hfs. reflexivity. }
  destruct (whole_run_records argv env po0 _ _ _ Ho Hp)
    as (Hopt & Hch & Hr & _ & Ht).
  set (po2 := sizing (set_st_size po0 (Z.of_nat (length content)))) in *.
  rewrite Hopt. intros Hone.
  assert (st_size po2 = Z.of_nat (length content)) as Hst
    by (subst po2; rewrite sizing_st_size; reflexivity).
  assert (nth_child env po2 0
          = mk_child_info (pipe_fds env 0) 0 (Int.u64 (-1)) 0) as Hchild.
  { unfold nth_child, block_bounds. cbn [fst snd Z.of_nat].
    rewrite Hone. reflexivity. }
  assert (child_reads content po2 (nth_child env po2 0) = content) as Hreads.
  { rewrite Hchild. unfold child_reads, effective_read_to, fseek.
    cbn [seek_to read_to]. rewrite Z.eqb_refl, Hst.
    change (Int.long 0 <? 0) with false. cbv iota.
    change (Z.to_nat (Int.long 0)) with 0%nat. cbn [skipn].
    rewrite u64_small by lia. rewrite file_reads_firstn by lia.
    apply firstn_all2. lia. }
  rewrite Hone in Hch, Ht.
  change (Z.to_nat 1) with 1%nat in Hch, Ht. cbn [seq map] in Hch, Ht.
  unfold blocks. rewrite Hopt, Hch. cbn [map]. rewrite Hreads.
  split; [reflexivity|]. split; [exact Hr|].
  rewrite Ht. cbn [sum_of fold_right]. rewrite Z.add_0_r.
  rewrite (file_child_sum po2 env content).
  - rewrite Hreads, handle_stdin_groups.
    apply u64_small, u64_range.
  - subst po2. rewrite sizing_input_file. exact Hin.
  - subst po2. rewrite sizing_input_file. exact Hfs.
Qed.

Lemma one_child_scans_the_whole_file_witness :
  reported_sum (whole_run one_child_argv (one_file (bytes "abc123def456")))
  = sum (handle_stdin (bytes "abc123def456") 0).
Proof.
  refine (let H := one_child_scans_the_whole_file
                     one_child_argv (one_file (bytes "abc123def456")) _
                     (bytes "abc123def456") eq_refl _ eq_refl _ _ in _).
  - destruct H as (_ & _ & H3). exact H3.
  Unshelve.
  + vm_compute. discriminate.
  + vm_compute. reflexivity.
  + vm_compute. reflexivity.
Defined.

(** ** The sizes of the blocks *)

Lemma map_const_seq {B : Type} (f : nat -> B) (c : B) (len : nat) :
  forall start,
    (forall i, In i (seq start len) -> f i = c) ->
    map f (seq start len) = repeat c len.
Proof.
  induction len as [|len IH]; intros start H; [reflexivity|].
  cbn [seq map repeat]. rewrite (H start) by (left; reflexivity).
  f_equal. apply IH. intros i Hi. apply H. right. exact Hi.
Qed.

(** X11. Under the conditions of the partition (a file of [L] bytes below
    2^31, [N] children with [N = 1] or [N <= L]): every child but the last
    reads exactly [S] bytes, and the last reads the [L - (N - 1) * S]
    bytes that are left, which are at least [S]; that is [S] and the
    remainder of the division that gave the sizes, [L mod N] when the child
    count was given and [L mod S] when the block size was given and
    [L / S] fits 16 bits. *)
Theorem all_blocks_but_the_last_have_the_block_size
    (argv : list (OPTION_KEYS * string)) (env : environment)
    (evs : list read_event) (po0 : program_options) (content : list byte) :
  handle_options argv = inr po0 ->
  input_file po0 <> "-"%string ->
  file_system env (input_file po0) = Some content ->
  Z.of_nat (length content) < 2 ^ 31 ->
  let r := main argv env evs in
  let L := Z.of_nat (length content) in
  let N := child_count (options r) in
  let S := block_size (options r) in
  1 <= N ->
  N = 1 \/ N <= L ->
  map (fun b => Z.of_nat (length b)) (blocks content r)
  = repeat S (Z.to_nat (N - 1)) ++ [L - (N - 1) * S] /\
  S <= L - (N - 1) * S /\
  (block_size po0 <= 0 -> L - (N - 1) * S = S + L mod N) /\
  (0 < block_size po0 -> L / S < 2 ^ 16 -> L - (N - 1) * S = S + L mod S).
Proof.
  intros Ho Hin Hfs HL r L N S. subst r L N S.
  pose proof (handle_options_child_count _ _ Ho) as Hc0.
  destruct (file_sizing env po0 content (proj1 Hc0) Hin Hfs HL)
    as (Hp & Hst & Hs0 & Hfit & Heff).
  destruct (main_ready_children argv env evs po0 _ _ _ Ho Hp)
    as (Hopt & Hch & _).
  pose proof (prepare_child_count _ _ _ _ _ Hc0 Hp) as Hc1.
  pose proof (sizing_child_count _ Hc1) as Hc2.
  unfold blocks. rewrite Hopt, Hch.
  set (po2 := sizing (set_st_size po0 (Z.of_nat (length content)))) in *.
  intros HN Hcase.
  assert (0 <= st_size po2 < 2 ^ 31) as Hsmall by lia.
  assert (child_count po2 = 1 \/ 1 <= block_size po2) as Hpos.
  { destruct Hcase as [H1|HNL]; [left; exact H1|].
    destruct (Z.eq_dec (child_count po2) 1) as [H1|H1]; [left; exact H1|].
    right. destruct (block_size po0 >? 0) eqn:Hb.
    - destruct Heff as (-> & _). lia.
    - destruct Heff as (Hn & ->). rewrite <- Hn.
      assert (0 < Z.of_nat (length content) / child_count po2)
        by (apply Z.div_str_pos; lia).
      lia. }
  assert (child_count po2 * block_size po2 <= st_size po2) as Hfit' by lia.
  split.
  { replace (Z.to_nat (child_count po2))
      with (S (Z.to_nat (child_count po2 - 1))) by lia.
    set (n := Z.to_nat (child_count po2 - 1)).
    assert (Z.of_nat (n * Z.to_nat (block_size po2))
            = (child_count po2 - 1) * block_size po2) as Hmul
      by (subst n; rewrite Nat2Z.inj_mul, !Z2Nat.id; lia).
    rewrite seq_S, !map_app. cbn [Nat.add map]. f_equal.
    - rewrite !map_map. apply map_const_seq. intros i Hi. apply in_seq in Hi.
      rewrite (inner_child_reads env po2 Hsmall HN Hpos Hs0 Hfit') by lia.
      rewrite length_firstn, length_skipn.
      assert (Z.of_nat (i * Z.to_nat (block_size po2))
              = Z.of_nat i * block_size po2) as Hi'
        by (rewrite Nat2Z.inj_mul, Z2Nat.id; lia).
      assert ((Z.of_nat i + 1) * block_size po2 <= st_size po2) by nia.
      lia.
    - rewrite (last_child_reads env po2 Hsmall HN Hpos Hs0 Hfit') by lia.
      rewrite length_skipn. f_equal. nia. }
  split; [nia|]. split.
  - intros Hb. replace (block_size po0 >? 0) with false in Heff by lia.
    destruct Heff as (Hn & Hs). rewrite <- Hn in Hs.
    rewrite Hs.
    rewrite (Z.mod_eq (Z.of_nat (length content)) (child_count po2)) by lia.
    lia.
  - intros Hb Hfits16. replace (block_size po0 >? 0) with true in Heff by lia.
    destruct Heff as (Hs & Hn). rewrite <- Hs in Hn.
    unfold Int.u16 in Hn. rewrite Z.mod_small in Hn.
    + rewrite Hn.
      rewrite (Z.mod_eq (Z.of_nat (length content)) (block_size po2)) by lia.
      lia.
    + split; [apply Z.div_pos; lia|exact Hfits16].
Qed.

Lemma all_blocks_but_the_last_have_the_block_size_witness :
  map (fun b => Z.of_nat (length b))
      (blocks (bytes "0001112223334")
              (main two_children_argv (one_file (bytes "0001112223334")) []))
  = [6; 7].
Proof.
  refine (let H := all_blocks_but_the_last_have_the_block_size
                     two_children_argv (one_file (bytes "0001112223334")) []
                     _ (bytes "0001112223334") eq_refl _ eq_refl _ _ _ in _).
  - destruct H as (H1 & _). exact H1.
  Unshelve.
  + vm_compute. discriminate.
  + vm_compute. reflexivity.
  + vm_compute. discriminate.
  + right. vm_compute. discriminate.
Defined.

(** ** The epoll set *)

Lemma collect_epoll_set (evs : list read_event) :
  forall st fd,
    0 <= waiting_for st < 2 ^ 16 ->
    Forall (fun ev => got_bytes ev = true) evs ->
    Z.of_nat (length evs) = waiting_for st ->
    In fd (epoll_set (loop_state (collect evs st))) ->
    In fd (epoll_set st) /\ ~ In fd (map ev_fd evs).
Proof.
  induction evs as [|ev evs IH]; intros st fd Hw Hall Hlen; cbn [collect].
  - cbn [length] in Hlen. replace (waiting_for st >? 0) with false by lia.
    cbn [loop_state map]. auto.
  - cbn [length] in Hlen. replace (waiting_for st >? 0) with true by lia.
    inversion Hall as [|? ? Hev Hall']; subst.
    rewrite (handle_event_got _ _ Hev).
    assert (Int.u16 (waiting_for st - 1) = waiting_for st - 1) as Hu
      by (unfold Int.u16; apply Z.mod_small; lia).
    intros Hin. apply IH in Hin; cbn [waiting_for epoll_set] in *;
      try rewrite Hu; try lia; try assumption.
    destruct Hin as (Hin & Hnot). unfold epoll_del in Hin.
    apply filter_In in Hin. destruct Hin as (Hin & Hne).
    split; [exact Hin|]. cbn [map]. intros [Heq|Hrest]; [|auto].
    rewrite Heq, Z.eqb_refl in Hne. discriminate.
Qed.

(** X12. Every read takes its descriptor out of the epoll set, whether
    bytes arrived or not, and when the record of every child has arrived, in
    whatever order, no descriptor is registered any more. *)
Theorem no_pipe_stays_in_the_epoll_set
    (argv : list (OPTION_KEYS * string)) (env : environment)
    (evs : list read_event) (po0 po1 : program_options)
    (out err : list string) :
  handle_options argv = inr po0 ->
  prepare env po0 = Ready po1 out err ->
  Permutation evs (deliveries env (main argv env evs)) ->
  (forall ev st, ~ In (ev_fd ev) (epoll_set (handle_event ev st))) /\
  epoll_set (coord (main argv env evs)) = [].
Proof.
  intros Ho Hp HP. split.
  { intros ev st Hin. unfold handle_event in Hin.
    destruct (ev_bytes ev >? 0); cbn [epoll_set] in Hin;
      apply filter_In in Hin; destruct Hin as (_ & Hne);
      rewrite Z.eqb_refl in Hne; discriminate. }
  destruct (delivered_run argv env evs po0 po1 out err Ho Hp HP)
    as (_ & _ & _ & _ & _ & _ & Hfds & Hall & Hlen).
  rewrite (main_coord _ _ evs _ _ _ _ Ho Hp).
  pose proof (handle_options_child_count _ _ Ho) as H0.
  pose proof (prepare_child_count _ _ _ _ _ H0 Hp) as H1.
  pose proof (sizing_child_count _ H1) as H2.
  set (st0 := mk_coord 0 (child_count (sizing po1)) _ out).
  destruct (epoll_set (loop_state (collect evs st0))) as [|fd rest] eqn:Hset;
    [reflexivity|].
  exfalso.
  destruct (collect_epoll_set evs st0 fd) as (Hin & Hnot);
    [exact H2|exact Hall|exact Hlen|rewrite Hset; left; reflexivity|].
  apply Hnot. apply (Permutation_in _ (Permutation_sym Hfds)). exact Hin.
Qed.

Lemma no_pipe_stays_in_the_epoll_set_witness :
  epoll_set
    (coord (main two_children_argv (one_file (bytes "000111222333"))
                 [mk_event 6 16 (mk_child_result 1 555);
                  mk_event 4 16 (mk_child_result 0 111)]))
  = [].
Proof.
  refine (proj2 (no_pipe_stays_in_the_epoll_set
                   two_children_argv (one_file (bytes "000111222333"))
                   [mk_event 6 16 (mk_child_result 1 555);
                    mk_event 4 16 (mk_child_result 0 111)]
                   _ _ _ _ eq_refl eq_refl _)).
  vm_compute. apply perm_swap.
Defined.

(** ** The digit buffer *)

Lemma scan_body_holds (c : byte) (st : scan_state) (pending : list byte) :
  holds st pending -> exists pending', holds (scan_body c st) pending'.
Proof.
  destruct st as [bf cc total].
  intros (d0 & d1 & d2 & Hb & Hc & Hl & Hf & Hd).
  cbn [buf c_count scan_sum] in *. subst bf cc. unfold scan_body.
  cbn [buf c_count scan_sum].
  replace (Z.of_nat (length pending) <? 3) with true by lia. cbn [andb].
  destruct (isdigit c) eqn:Hdig.
  - destruct pending as [|p0 [|p1 [|p2 tl]]]; cbn [length] in Hl; try lia;
      cbv [length Z.of_nat Pos.of_succ_nat Pos.succ Z.add Z.to_nat
           Pos.to_nat Pos.iter_op Nat.add store Z.geb Z.compare Pos.compare
           Pos.compare_cont Pos.add];
      cbn [buf c_count scan_sum].
    + exists [c], c, d1, d2. cbn. repeat split; auto.
    + cbn in Hf. injection Hf as ->. inversion Hd; subst.
      exists [p0; c], p0, c, d2. cbn. repeat split; auto.
    + cbn in Hf. injection Hf as -> ->.
      exists [], p0, p1, c. cbn. repeat split; auto.
  - cbn [buf c_count scan_sum].
    replace (Z.of_nat (length pending) >=? 3) with false by lia.
    exists pending, d0, d1, d2. cbn. repeat split; auto.
Qed.

Lemma stdin_loop_holds (stream : list byte) :
  forall st pending,
    holds st pending -> exists pending', holds (stdin_loop stream st) pending'.
Proof.
  induction stream as [|c rest IH]; intros st pending H; cbn [stdin_loop].
  - exists pending. exact H.
  - destruct (scan_body_holds c st pending H) as (p1 & H1).
    exact (IH _ _ H1).
Qed.

(** X13. The digit buffer is never overrun: after any stream, in either
    scanning loop, [c_count] is 0, 1 or 2, so a digit is only ever stored in
    one of the first three bytes of [buf], whose fourth byte is still the
    NUL that ends the string for [atoi]. *)
Theorem digit_buffer_is_never_overrun
    (stream : list byte) (pos read_to : Z) :
  (0 <= c_count (stdin_loop stream scan_init) < 3 /\
   length (buf (stdin_loop stream scan_init)) = 4%nat /\
   nth 3 (buf (stdin_loop stream scan_init)) x01 = x00) /\
  (0 <= c_count (file_loop stream pos read_to scan_init) < 3 /\
   length (buf (file_loop stream pos read_to scan_init)) = 4%nat /\
   nth 3 (buf (file_loop stream pos read_to scan_init)) x01 = x00).
Proof.
  assert (forall s, 0 <= c_count (stdin_loop s scan_init) < 3 /\
                    length (buf (stdin_loop s scan_init)) = 4%nat /\
                    nth 3 (buf (stdin_loop s scan_init)) x01 = x00) as H.
  { intros s.
    destruct (stdin_loop_holds s scan_init [] holds_init)
      as (pending & d0 & d1 & d2 & Hb & Hc & Hl & _).
    rewrite Hb, Hc. cbn [length nth]. repeat split; lia. }
  split; [apply H|]. rewrite file_loop_reads. apply H.
Qed.

(** ** The final sum without wrap-around *)

Lemma groups_total_bounds (pieces : list (list byte)) :
  0 <= groups_total pieces <= 333 * Z.of_nat (length (concat pieces)).
Proof.
  induction pieces as [|p rest IH]; [cbn; lia|].
  cbn [groups_total fold_right concat]. fold (groups_total rest).
  rewrite length_app.
  pose proof (group_sum_bounds _ (digits_are_digits p)) as Hb.
  pose proof (filter_length_le isdigit p) as Hf. fold (digits p) in Hf.
  lia.
Qed.

(** X14. For a file and a run in which the record of every child
    arrives, in whatever order, and whether or not the blocks are a
    partition of the file: the final sum is built from the blocks one by
    one, each block giving the sum of the complete groups of three of its
    own digits (digits left over at the end of a block are dropped, a byte
    that two children read counts twice), modulo 2^64.  When the children
    read fewer than 2^54 bytes in all, nothing wraps around, and the final
    sum is at most 333 times the number of bytes read. *)
Theorem final_sum_is_the_sum_over_the_blocks
    (argv : list (OPTION_KEYS * string)) (env : environment)
    (evs : list read_event) (po0 : program_options) (content : list byte) :
  handle_options argv = inr po0 ->
  input_file po0 <> "-"%string ->
  file_system env (input_file po0) = Some content ->
  Permutation evs (deliveries env (main argv env evs)) ->
  reported_sum (main argv env evs)
  = Int.u64 (groups_total (blocks content (main argv env evs))) /\
  (Z.of_nat (length (concat (blocks content (main argv env evs)))) < 2 ^ 54 ->
   reported_sum (main argv env evs)
   = groups_total (blocks content (main argv env evs)) /\
   0 <= reported_sum (main argv env evs)
     <= 333 * Z.of_nat (length (concat (blocks content (main argv env evs))))).
Proof.
  intros Ho Hin Hfs HP.
  assert (String.eqb "-" (input_file po0) = false) as Hneq.
  { apply String.eqb_neq. intros H. apply Hin. symmetry. exact H. }
  assert (prepare env po0
          = Ready (set_st_size po0 (Z.of_nat (length content)))
              [("File size: "
                ++ decimal (st_size (set_st_size
                                       po0 (Z.of_nat (length content)))))%string]
              []) as Hp.
  { unfold prepare. rewrite Hneq, Hfs. reflexivity. }
  destruct (delivered_run argv env evs po0 _ _ _ Ho Hp HP)
    as (Hopt & Hch & _ & _ & _ & Ht & _).
  set (po2 := sizing (set_st_size po0 (Z.of_nat (length content)))) in *.
  pose proof (groups_total_bounds (blocks content (main argv env evs))) as Hb.
  assert (reported_sum (main argv env evs)
          = Int.u64 (groups_total (blocks content (main argv env evs))))
    as Heq.
  { rewrite Ht, (records_are_group_sums _ (child_reads content po2)).
    - unfold blocks. rewrite Hopt, Hch. reflexivity.
    - intros ci. apply file_child_sum.
      + subst po2. rewrite sizing_input_file. exact Hin.
      + subst po2. rewrite sizing_input_file. exact Hfs. }
  split; [exact Heq|]. intros Hsmall.
  rewrite Heq, u64_small by lia. split; [reflexivity|exact Hb].
Qed.

Lemma final_sum_is_the_sum_over_the_blocks_witness :
  reported_sum
    (main [(INPUT_FILE, "in.dat"%string); (CHILD_COUNT, "4"%string)]
          (one_file (bytes "123"))
          [mk_event 10 16 (mk_child_result 3 123);
           mk_event 4 16 (mk_child_result 0 123);
           mk_event 6 16 (mk_child_result 1 123);
           mk_event 8 16 (mk_child_result 2 123)])
  = 492.
Proof.
  refine (let H := final_sum_is_the_sum_over_the_blocks
                     [(INPUT_FILE, "in.dat"%string); (CHILD_COUNT, "4"%string)]
                     (one_file (bytes "123"))
                     [mk_event 10 16 (mk_child_result 3 123);
                      mk_event 4 16 (mk_child_result 0 123);
                      mk_event 6 16 (mk_child_result 1 123);
                      mk_event 8 16 (mk_child_result 2 123)]
                     _ (bytes "123") eq_refl _ eq_refl _ in _).
  - destruct H as (_ & H2). exact (proj1 (H2 eq_refl)).
  Unshelve.
  + vm_compute. discriminate.
  + vm_compute.
    apply (Permutation_cons_app
             [mk_event 4 16 (mk_child_result 0 123);
              mk_event 6 16 (mk_child_result 1 123);
              mk_event 8 16 (mk_child_result 2 123)] []).
    rewrite app_nil_r. apply Permutation_refl.
Defined.
